(** * estate-tools: the derived-state layer of [server.py]

    A shallow embedding of the goal/sales normalisation, the lease lock
    manager, the progress roll-ups and the case-number sequencer of
    [server.py], with the properties the design document states about
    them.

    Python values are embedded as a small universe [pyval]; a Python
    exception is an explicit [Raise] result.  A [str] is its sequence of
    code points, a [dict] is its item list in insertion order, an [int]
    is a [Z], a [float] is an IEEE binary64 value of [SpecFloat]. *)

From Stdlib Require Import List ZArith NArith Bool Lia Permutation Sorted.
From Stdlib Require Import String Ascii SpecFloat.
Import ListNotations.

Set Implicit Arguments.
Set Warnings "-register-all".


(* ================================================================== *)
(** * Python runtime values and the built-ins the program calls        *)
(* ================================================================== *)

Module Py.

(** A [str] is a sequence of Unicode code points. *)
Definition str := list N.

(** An ASCII literal of the source as a [str]. *)
Definition u (s : string) : str := map N_of_ascii (list_ascii_of_string s).

Fixpoint str_eqb (a b : str) : bool :=
  match a, b with
  | [], [] => true
  | x :: a', y :: b' => N.eqb x y && str_eqb a' b'
  | _, _ => false
  end.

(** [a <= b] on [str]: lexicographic on code points. *)
Fixpoint str_leb (a b : str) : bool :=
  match a, b with
  | [], _ => true
  | _ :: _, [] => false
  | x :: a', y :: b' =>
      if N.ltb x y then true
      else if N.eqb x y then str_leb a' b' else false
  end.

(** [c in s] for a one-character needle. *)
Definition str_contains (c : N) (s : str) : bool := existsb (N.eqb c) s.

(** Python's [float]: IEEE 754 binary64. *)
Definition float := spec_float.
Definition prec : Z := 53.
Definition emax : Z := 1024.
Definition fzero : float := S754_zero false.
Definition fadd : float -> float -> float := SFadd prec emax.

Inductive pyval : Type :=
| PNone
| PBool (b : bool)
| PInt (z : Z)
| PFloat (f : float)
| PStr (s : str)
| PList (l : list pyval)
| PDict (d : list (str * pyval)).

Definition dict := list (str * pyval).

(** The exceptions the modelled code can meet. *)
Inductive exn : Type := TypeError | ValueError | OverflowError | AttributeError.

Inductive result (A : Type) : Type :=
| Ok (a : A)
| Raise (e : exn).
Arguments Ok {A} a.
Arguments Raise {A} e.

Definition bind {A B} (r : result A) (k : A -> result B) : result B :=
  match r with
  | Ok a => k a
  | Raise e => Raise e
  end.

Notation "x <- c ;; k" := (bind c (fun x => k))
  (at level 61, c at next level, right associativity).

(** [try: body  except (TypeError, ValueError): handler]. *)
Definition try_except {A} (body : result A) (handler : result A) : result A :=
  match body with
  | Raise TypeError | Raise ValueError => handler
  | other => other
  end.

(** Truth value of an object, as [bool(v)], [if v] and [v or w] test it. *)
Definition truthy (v : pyval) : bool :=
  match v with
  | PNone => false
  | PBool b => b
  | PInt z => negb (Z.eqb z 0)
  | PFloat (S754_zero _) => false
  | PFloat _ => true
  | PStr [] => false
  | PStr _ => true
  | PList [] => false
  | PList _ => true
  | PDict [] => false
  | PDict _ => true
  end.

(** [a or b]. *)
Definition py_or (a b : pyval) : pyval := if truthy a then a else b.

(** ** dict operations (insertion-ordered) *)

Fixpoint dict_lookup {V} (d : list (str * V)) (k : str) : option V :=
  match d with
  | [] => None
  | (k', v) :: d' => if str_eqb k' k then Some v else dict_lookup d' k
  end.

(** [d[k] = v]: an existing key keeps its position, a new one goes last. *)
Fixpoint dict_set {V} (d : list (str * V)) (k : str) (v : V) : list (str * V) :=
  match d with
  | [] => [(k, v)]
  | (k', v') :: d' =>
      if str_eqb k' k then (k', v) :: d' else (k', v') :: dict_set d' k v
  end.

(** [d.update(other)]. *)
Definition dict_update {V} (d other : list (str * V)) : list (str * V) :=
  fold_left (fun acc kv => dict_set acc (fst kv) (snd kv)) other d.

(** [d.get(k)], with [None] for a missing key. *)
Definition py_get (d : dict) (k : str) : pyval :=
  match dict_lookup d k with
  | Some v => v
  | None => PNone
  end.

(** [d.get(k, default)]. *)
Definition dict_get_default {V} (d : list (str * V)) (k : str) (default : V) : V :=
  match dict_lookup d k with
  | Some v => v
  | None => default
  end.

Definition keys {V} (d : list (str * V)) : list str := map fst d.
Definition values {V} (d : list (str * V)) : list V := map snd d.

(** [v.items()]: only a dict has the method. *)
Definition py_items (v : pyval) : result dict :=
  match v with
  | PDict d => Ok d
  | _ => Raise AttributeError
  end.

(** [for x in v]: the elements of a list, the characters of a str, the
    keys of a dict; anything else is not iterable. *)
Definition py_iter (v : pyval) : result (list pyval) :=
  match v with
  | PList l => Ok l
  | PStr s => Ok (map (fun c => PStr [c]) s)
  | PDict d => Ok (map (fun kv => PStr (fst kv)) d)
  | _ => Raise TypeError
  end.

(** ** str.strip() *)

(** The code points [str.strip()] removes (those with [str.isspace()]). *)
Definition is_space (c : N) : bool :=
  ((9 <=? c) && (c <=? 13)
   || (28 <=? c) && (c <=? 32)
   || (c =? 133) || (c =? 160) || (c =? 5760)
   || (8192 <=? c) && (c <=? 8202)
   || (c =? 8232) || (c =? 8233) || (c =? 8239) || (c =? 8287)
   || (c =? 12288))%N.

Fixpoint lstrip (s : str) : str :=
  match s with
  | [] => []
  | c :: s' => if is_space c then lstrip s' else s
  end.

Definition strip (s : str) : str := rev (lstrip (rev (lstrip s))).

(** ** Decimal digits in text *)

(** The code points of the digit zero of every run of decimal digits
    (Unicode 14.0, the table of CPython 3.11): the characters that [\d]
    matches in a str pattern and that [int()] reads are these and the
    nine that follow each. *)
Definition decimal_zeros : list N :=
  [48; 1632; 1776; 1984; 2406; 2534; 2662; 2790; 2918; 3046; 3174; 3302;
   3430; 3558; 3664; 3792; 3872; 4160; 4240; 6112; 6160; 6470; 6608; 6784;
   6800; 6992; 7088; 7232; 7248; 42528; 43216; 43264; 43472; 43504; 43600;
   44016; 65296; 66720; 68912; 69734; 69872; 69942; 70096; 70384; 70736;
   70864; 71248; 71360; 71472; 71904; 72016; 72784; 73040; 73120; 92768;
   92864; 93008; 120782; 120792; 120802; 120812; 120822; 123200; 123632;
   125264; 130032]%N.

(** The value of a decimal digit, [None] for any other character. *)
Definition digit_value (c : N) : option N :=
  match find (fun zero => (zero <=? c) && (c <=? zero + 9))%N decimal_zeros with
  | Some zero => Some (c - zero)%N
  | None => None
  end.

(** [int(s)] for a run of digits [s]. *)
Fixpoint digits_value (s : str) (acc : N) : option N :=
  match s with
  | [] => Some acc
  | c :: s' =>
      match digit_value c with
      | Some d => digits_value s' (10 * acc + d)%N
      | None => None
      end
  end.

(** ** Numbers *)

(** Truncation of a finite float toward zero. *)
Definition float_trunc (s : bool) (m : positive) (e : Z) : Z :=
  let a := Z.shiftl (Zpos m) e in
  if s then Z.opp a else a.

(** [float(n)] for an int [n]: correctly rounded, [OverflowError] when the
    rounded value is not finite. *)
Definition float_of_int (z : Z) : result float :=
  match binary_normalize prec emax z 0 false with
  | S754_infinity _ => Raise OverflowError
  | f => Ok f
  end.

Section Parsers.

(** The interpreter's parsers of numeric text: [int(s)] and [float(s)] for
    a str [s], [None] standing for their [ValueError]. *)
Variable int_of_str : str -> option Z.
Variable float_of_str : str -> option float.

(** [int(v)]. *)
Definition py_int (v : pyval) : result Z :=
  match v with
  | PNone => Raise TypeError
  | PBool b => Ok (if b then 1 else 0)%Z
  | PInt z => Ok z
  | PFloat (S754_zero _) => Ok 0%Z
  | PFloat (S754_finite s m e) => Ok (float_trunc s m e)
  | PFloat (S754_infinity _) => Raise OverflowError
  | PFloat S754_nan => Raise ValueError
  | PStr s => match int_of_str s with Some z => Ok z | None => Raise ValueError end
  | PList _ | PDict _ => Raise TypeError
  end.

(** [float(v)]. *)
Definition py_float (v : pyval) : result float :=
  match v with
  | PNone => Raise TypeError
  | PBool b => if b then float_of_int 1 else Ok fzero
  | PInt z => float_of_int z
  | PFloat f => Ok f
  | PStr s => match float_of_str s with Some f => Ok f | None => Raise ValueError end
  | PList _ | PDict _ => Raise TypeError
  end.

End Parsers.

(** One instance of the parsers, for text that is an optional minus sign
    and decimal digits (the whole of [int(s)] and [float(s)] is not
    needed to run the examples). *)
Definition plain_int_of_str (s : str) : option Z :=
  match s with
  | [] => None
  | 45%N :: [] => None
  | 45%N :: ds => option_map (fun n => Z.opp (Z.of_N n)) (digits_value ds 0)
  | ds => option_map Z.of_N (digits_value ds 0)
  end.

Definition plain_float_of_str (s : str) : option float :=
  match plain_int_of_str s with
  | Some 0%Z =>
      Some (S754_zero match s with 45%N :: _ => true | _ => false end)
  | Some z => Some (binary_normalize prec emax z 0 false)
  | None => None
  end.

(** [max(0, f)] for a float [f]: the first argument unless [f > 0]. *)
Definition max0_float (f : float) : pyval :=
  if SFltb fzero f then PFloat f else PInt 0.

(** [a + b] on numbers. *)
Definition num_add (a b : pyval) : result pyval :=
  let as_int v :=
    match v with
    | PInt z => Some z
    | PBool b => Some (if b then 1 else 0)%Z
    | _ => None
    end in
  match as_int a, as_int b with
  | Some x, Some y => Ok (PInt (x + y))
  | Some x, None =>
      match b with
      | PFloat g => f <- float_of_int x ;; Ok (PFloat (fadd f g))
      | _ => Raise TypeError
      end
  | None, Some y =>
      match a with
      | PFloat f => g <- float_of_int y ;; Ok (PFloat (fadd f g))
      | _ => Raise TypeError
      end
  | None, None =>
      match a, b with
      | PFloat f, PFloat g => Ok (PFloat (fadd f g))
      | _, _ => Raise TypeError
      end
  end.

(** [sum(vs)]: left to right, starting from the int [0]. *)
Definition py_sum (vs : list pyval) : result pyval :=
  fold_left (fun acc v => a <- acc ;; num_add a v) vs (Ok (PInt 0)).

(** [v == 0] for a number [v]. *)
Definition num_is_zero (v : pyval) : bool :=
  match v with
  | PInt z => Z.eqb z 0
  | PBool b => negb b
  | PFloat f => SFeqb f fzero
  | _ => false
  end.

(** ** Decimal text *)

Definition digit_char (d : N) : N := (48 + d)%N.

(** The last [w] decimal digits of [n], most significant first. *)
Fixpoint digits_w (w : nat) (n : N) : str :=
  match w with
  | O => []
  | S w' => digits_w w' (n / 10) ++ [digit_char (n mod 10)]
  end.

(** Number of decimal digits of [n] (at least one). *)
Fixpoint ndigits (fuel : nat) (n : N) : nat :=
  match fuel with
  | O => 1
  | S fuel' => if (n <? 10)%N then 1 else S (ndigits fuel' (n / 10))
  end.

(** [str(n)] for a natural number. *)
Definition str_of_N (n : N) : str := digits_w (ndigits (N.size_nat n) n) n.

(** [str(z)] for an int. *)
Definition str_of_Z (z : Z) : str :=
  match z with
  | Zneg p => 45%N :: str_of_N (Npos p)
  | _ => str_of_N (Z.to_N z)
  end.

(** [f"{n:0wd}"] for a natural number: [str(n)] zero-padded to [w]. *)
Definition format_0d (w : nat) (n : N) : str :=
  digits_w (Nat.max w (ndigits (N.size_nat n) n)) n.

(** [s[-2:]]. *)
Definition last2 (s : str) : str := skipn (List.length s - 2) s.

(** ** More dict and list helpers *)

(** [d.setdefault(k, default)] followed by an in-place change [f] of the
    value it returns. *)
Definition dict_modify {V} (d : list (str * V)) (k : str) (default : V)
  (f : V -> V) : list (str * V) :=
  dict_set d k (f (dict_get_default d k default)).

(** [x in l] for a list of str. *)
Definition str_in (x : str) (l : list str) : bool := existsb (str_eqb x) l.

(** The elements of [set(l)]: the distinct members of [l]. *)
Fixpoint distinct (l : list str) : list str :=
  match l with
  | [] => []
  | x :: l' => if str_in x l' then distinct l' else x :: distinct l'
  end.

(** [sorted(l, key=...)]: a stable sort, [leb] comparing the keys.  The
    elements are taken from left to right and each goes behind the ones
    already placed that are not greater. *)
Fixpoint insert_by {A} (leb : A -> A -> bool) (x : A) (l : list A) : list A :=
  match l with
  | [] => [x]
  | y :: l' => if leb y x then y :: insert_by leb x l' else x :: l
  end.

Definition sorted_by {A} (leb : A -> A -> bool) (l : list A) : list A :=
  fold_left (fun placed x => insert_by leb x placed) l [].

End Py.

(* ================================================================== *)
(** * Goal and sales documents: normalisation and the store adapter    *)
(* ================================================================== *)

Module Goals.
Import Py.

Definition K_storeTarget : str := u "storeTarget".
Definition K_staffTargets : str := u "staffTargets".
Definition K_includeStaff : str := u "includeStaff".
Definition K_store : str := u "store".
Definition K_staff : str := u "staff".
Definition K_default : str := u "default".
Definition K_monthly : str := u "monthly".
Definition K_annual : str := u "annual".

(** [DEFAULT_GOAL], also the literal [normalize_goal] starts from. *)
Definition DEFAULT_GOAL : dict :=
  [(K_storeTarget, PInt 0); (K_staffTargets, PDict []); (K_includeStaff, PList [])].

Section WithParsers.

Variable int_of_str : str -> option Z.
Variable float_of_str : str -> option float.

(** The loop over [staffTargets.items()] of [normalize_goal]: an entry
    whose value [int()] rejects with TypeError or ValueError is skipped. *)
Fixpoint staff_targets_loop (items : dict) (staff_targets : dict) : result dict :=
  match items with
  | [] => Ok staff_targets
  | (name, target) :: rest =>
      st <- try_except
              (z <- py_int int_of_str target ;;
               Ok (dict_set staff_targets name (PInt (Z.max 0 z))))
              (Ok staff_targets) ;;
      staff_targets_loop rest st
  end.

(** The loop over [includeStaff] of [normalize_goal]. *)
Fixpoint include_staff_loop (names : list pyval) : list pyval :=
  match names with
  | [] => []
  | PStr name :: rest =>
      if truthy (PStr (strip name))
      then PStr (strip name) :: include_staff_loop rest
      else include_staff_loop rest
  | _ :: rest => include_staff_loop rest
  end.

Definition normalize_goal (goal : pyval) : result pyval :=
  let normalized :=
    match goal with
    | PDict g => dict_update DEFAULT_GOAL g
    | _ => DEFAULT_GOAL
    end in
  store_target <-
    try_except
      (z <- py_int int_of_str (py_or (py_get normalized K_storeTarget) (PInt 0)) ;;
       Ok (Z.max 0 z))
      (Ok 0%Z) ;;
  let normalized := dict_set normalized K_storeTarget (PInt store_target) in
  items <- py_items (py_or (py_get normalized K_staffTargets) (PDict [])) ;;
  staff_targets <- staff_targets_loop items [] ;;
  let normalized := dict_set normalized K_staffTargets (PDict staff_targets) in
  names <- py_iter (py_or (py_get normalized K_includeStaff) (PList [])) ;;
  let normalized :=
    dict_set normalized K_includeStaff (PList (include_staff_loop names)) in
  Ok (PDict normalized).

(** The loop over [staff.items()] of [normalize_sales]. *)
Fixpoint sales_staff_loop (items : dict) (staff : dict) : result dict :=
  match items with
  | [] => Ok staff
  | (name, val) :: rest =>
      st <- try_except
              (f <- py_float float_of_str val ;;
               Ok (dict_set staff name (max0_float f)))
              (Ok staff) ;;
      sales_staff_loop rest st
  end.

Definition normalize_sales (rec : pyval) : result pyval :=
  match rec with
  | PDict r =>
      items <- py_items (py_or (py_get r K_staff) (PDict [])) ;;
      staff <- sales_staff_loop items [] ;;
      store <-
        try_except
          (store_num <- py_float float_of_str (py_get r K_store) ;;
           Ok (PFloat (if SFltb store_num fzero then fzero else store_num)))
          (py_sum (values staff)) ;;
      store <-
        (if num_is_zero store && truthy (PDict staff)
         then py_sum (values staff)
         else Ok store) ;;
      Ok (PDict [(K_store, store); (K_staff, PDict staff)])
  | _ => Ok (PDict [(K_store, PInt 0); (K_staff, PDict [])])
  end.

(** ** The goals document in [app_settings] *)

(** The row of [app_settings] under the key "goals": absent, or its JSON
    value. *)
Definition setting := option pyval.

(** What [load_goals_data] returns: a dict with exactly these keys. *)
Record goals_data : Type := {
  default : pyval;
  monthly : dict;
  annual : dict
}.

Definition goals_to_py (g : goals_data) : pyval :=
  PDict [(K_default, default g); (K_monthly, PDict (monthly g));
         (K_annual, PDict (annual g))].

(** A stateful step on the stored row; the row survives an exception. *)
Definition M (A : Type) : Type := setting -> result A * setting.

Definition load_app_setting (default : pyval) : M pyval :=
  fun row => (Ok match row with Some v => v | None => default end, row).

Definition save_app_setting (data : pyval) : M unit :=
  fun _ => (Ok tt, Some data).

(** [for key, goal in d.items(): out[str(key)] = normalize_goal(goal)]. *)
Fixpoint normalize_each (items : dict) (out : dict) : result dict :=
  match items with
  | [] => Ok out
  | (key, goal) :: rest =>
      g <- normalize_goal goal ;;
      normalize_each rest (dict_set out key g)
  end.

(** [load_goals_data]; [month_key] is [current_month_key()]. *)
Definition load_goals_data (month_key : str) : M goals_data :=
  fun row =>
    let (loaded, row) :=
      load_app_setting
        (PDict [(K_default, PDict DEFAULT_GOAL);
                (K_monthly, PDict [(month_key, PDict DEFAULT_GOAL)]);
                (K_annual, PDict [])]) row in
    let data :=
      match loaded with
      | Ok (PDict d) => d
      | _ => []
      end in
    let migrated :=
      match py_get data K_monthly with
      | PNone =>
          match normalize_goal (PDict data) with
          | Ok legacy_goal =>
              let data := [(K_default, legacy_goal);
                           (K_monthly, PDict [(month_key, legacy_goal)]);
                           (K_annual, PDict [])] in
              let (_, row) := save_app_setting (PDict data) row in
              (Ok (data, PDict [(month_key, legacy_goal)]), row)
          | Raise e => (Raise e, row)
          end
      | monthly => (Ok (data, monthly), row)
      end in
    let (step, row) := migrated in
    (data_monthly <- step ;;
     let (data, monthly) := data_monthly : dict * pyval in
     normalized_monthly <-
       match monthly with
       | PDict m => normalize_each m []
       | _ => Ok []
       end ;;
     default_goal <-
       normalize_goal (py_or (py_get data K_default) (PDict DEFAULT_GOAL)) ;;
     normalized_annual <-
       match py_or (py_get data K_annual) (PDict []) with
       | PDict a => normalize_each a []
       | _ => Ok []
       end ;;
     Ok {| default := default_goal;
           monthly := normalized_monthly;
           annual := normalized_annual |},
     row).

Definition save_goals_data (data : goals_data) : M unit :=
  save_app_setting (goals_to_py data).

Definition save_goal_for_month (now_month month_key : str) (goal_body : pyval)
  : M goals_data :=
  fun row =>
    match load_goals_data now_month row with
    | (Raise e, row) => (Raise e, row)
    | (Ok goals, row) =>
        match normalize_goal goal_body with
        | Raise e => (Raise e, row)
        | Ok normalized =>
            let goals := {| default := default goals;
                            monthly := dict_set (monthly goals) month_key normalized;
                            annual := annual goals |} in
            let (_, row) := save_goals_data goals row in
            (Ok goals, row)
        end
    end.

(** [normalized["storeTarget"] = sum(normalized.get("staffTargets", {}).values())]. *)
Definition derive_store_target (normalized : pyval) : result pyval :=
  match normalized with
  | PDict n =>
      match dict_get_default n K_staffTargets (PDict []) with
      | PDict staff_targets =>
          total <- py_sum (values staff_targets) ;;
          Ok (PDict (dict_set n K_storeTarget total))
      | _ => Raise AttributeError
      end
  | _ => Raise AttributeError
  end.

Definition save_goal_for_year (now_month year_key : str) (goal_body : pyval)
  : M goals_data :=
  fun row =>
    match load_goals_data now_month row with
    | (Raise e, row) => (Raise e, row)
    | (Ok goals, row) =>
        match normalized <- normalize_goal goal_body ;; derive_store_target normalized with
        | Raise e => (Raise e, row)
        | Ok normalized =>
            let goals := {| default := default goals;
                            monthly := monthly goals;
                            annual := dict_set (annual goals) year_key normalized |} in
            let (_, row) := save_goals_data goals row in
            (Ok goals, row)
        end
    end.

End WithParsers.

End Goals.

(* ================================================================== *)
(** * Lease lock manager ([record_locks])                              *)
(* ================================================================== *)

Module Locks.
Import Py.

(** Timestamps, in microseconds. *)
Definition timestamp := Z.

Definition LOCK_DURATION_MINUTES : Z := 2.
Definition minutes (n : Z) : Z := n * 60 * 1000000.

(** A row of [record_locks]. *)
Record lock : Type := {
  resource_type : str;
  resource_id : str;
  locked_by : str;
  locked_at : timestamp;
  expires_at : timestamp
}.

Definition table := list lock.

(** The text of a timestamp in an answer: [isoformat()] of it, or the
    empty string. *)
Inductive stamp : Type := Iso (t : timestamp) | Blank.

(** The dict returned next to the flag; ["locked_at"] is not always there. *)
Record lock_info : Type := {
  user : str;
  info_locked_at : option stamp;
  info_expires_at : stamp
}.

Definition same_key (rt rid : str) (l : lock) : bool :=
  str_eqb (resource_type l) rt && str_eqb (resource_id l) rid.

(** [DELETE FROM record_locks WHERE expires_at < NOW()]. *)
Definition cleanup_expired_locks (db_now : timestamp) (t : table) : table :=
  filter (fun l => negb (expires_at l <? db_now)%Z) t.

(** [SELECT * ... WHERE resource_type = %s AND resource_id = %s] and
    [fetchone()]. *)
Definition select_lock (rt rid : str) (t : table) : option lock :=
  find (same_key rt rid) t.

(** Modelled from the spec: the schema of [record_locks] is not part of
    [server.py]; the store enforces a uniqueness constraint on
    [(resource_type, resource_id)], so the INSERT is rejected (the
    IntegrityError the code handles, [None] here) when a row with the key
    is present. *)
Definition insert_lock (l : lock) (t : table) : option table :=
  match select_lock (resource_type l) (resource_id l) t with
  | Some _ => None
  | None => Some (t ++ [l])
  end.

(** [check_lock_available].  [db_now] is the store's [NOW()], [now] is
    [datetime.utcnow()]; [others] is what other sessions commit between
    this session's SELECT and its INSERT. *)
Definition check_lock_available (db_now now : timestamp)
  (others : table -> table) (rt rid user_name : str) (t : table)
  : (bool * lock_info) * table :=
  let t := cleanup_expired_locks db_now t in
  let expires := (now + minutes LOCK_DURATION_MINUTES)%Z in
  match select_lock rt rid t with
  | Some existing =>
      ((false, {| user := locked_by existing;
                  info_locked_at := Some (Iso (locked_at existing));
                  info_expires_at := Iso (expires_at existing) |}), t)
  | None =>
      let t := others t in
      match insert_lock {| resource_type := rt; resource_id := rid;
                           locked_by := user_name; locked_at := now;
                           expires_at := expires |} t with
      | Some t' =>
          ((true, {| user := user_name;
                     info_locked_at := Some (Iso now);
                     info_expires_at := Iso expires |}), t')
      | None =>
          ((false, {| user := u "unknown";
                      info_locked_at := None;
                      info_expires_at := Blank |}), t)
      end
  end.

(** [release_lock]. *)
Definition release_lock (rt rid : str) (t : table) : table :=
  filter (fun l => negb (same_key rt rid l)) t.

(** A lease is live while its expiry lies in the future. *)
Definition live (db_now : timestamp) (l : lock) : Prop := (db_now < expires_at l)%Z.

(** The uniqueness constraint as a property of a table. *)
Definition unique_keys (t : table) : Prop :=
  NoDup (map (fun l => (resource_type l, resource_id l)) t).

End Locks.

(* ================================================================== *)
(** * Progress aggregation: contracts to months                        *)
(* ================================================================== *)

Module Progress.
Import Py.

(** ** [datetime.strptime(s, "%Y-%m-%d")] *)

Definition in_range (lo hi c : N) : bool := ((lo <=? c) && (c <=? hi))%N.

(** One alternative of a regex group: the value it reads and the text
    left after it. *)
Definition alternative := str -> option (N * str).

(** A literal character, then one in [lo..hi]. *)
Definition lit_then_range (c0 lo hi : N) (tens : N) : alternative :=
  fun s =>
    match s with
    | a :: b :: rest =>
        if (a =? c0)%N && in_range lo hi b
        then Some ((tens + (b - 48))%N, rest) else None
    | _ => None
    end.

(** A single character in [lo..hi]. *)
Definition one_in_range (lo hi : N) : alternative :=
  fun s =>
    match s with
    | a :: rest => if in_range lo hi a then Some ((a - 48)%N, rest) else None
    | _ => None
    end.

(** [[1-2]\d]. *)
Definition one_or_two_then_digit : alternative :=
  fun s =>
    match s with
    | a :: b :: rest =>
        match digit_value b with
        | Some d => if in_range 49 50 a then Some ((10 * (a - 48) + d)%N, rest) else None
        | None => None
        end
    | _ => None
    end.

(** The group for [%m]: [1[0-2]|0[1-9]|[1-9]]. *)
Definition month_alternatives : list alternative :=
  [lit_then_range 49 48 50 10; lit_then_range 48 49 57 0; one_in_range 49 57].

(** The group for [%d]: [3[0-1]|[1-2]\d|0[1-9]|[1-9]| [1-9]]. *)
Definition day_alternatives : list alternative :=
  [lit_then_range 51 48 49 30; one_or_two_then_digit;
   lit_then_range 48 49 57 0; one_in_range 49 57; lit_then_range 32 49 57 0].

(** Alternatives are tried in order; one whose continuation fails is
    given up for the next. *)
Definition first_match {A} (alts : list alternative)
  (k : N -> str -> option A) (s : str) : option A :=
  fold_right
    (fun (a : alternative) next =>
       match a s with
       | Some (v, rest) =>
           match k v rest with
           | Some r => Some r
           | None => next
           end
       | None => next
       end)
    None alts.

Definition is_leap (y : N) : bool :=
  ((y mod 4 =? 0) && negb (y mod 100 =? 0) || (y mod 400 =? 0))%N.

Definition days_in_month (y m : N) : N :=
  if (m =? 2)%N then (if is_leap y then 29 else 28)%N
  else if ((m =? 4) || (m =? 6) || (m =? 9) || (m =? 11))%N then 30%N
  else 31%N.

(** The (year, month, day) of a date text, [None] for the ValueError of a
    text that does not match, has text left over, or names no date. *)
Definition strptime_ymd (s : str) : option (N * N * N) :=
  match s with
  | y1 :: y2 :: y3 :: y4 :: 45%N :: rest =>
      match digits_value [y1; y2; y3; y4] 0 with
      | Some y =>
          match
            first_match month_alternatives
              (fun m rest1 =>
                 match rest1 with
                 | 45%N :: rest2 =>
                     first_match day_alternatives
                       (fun d rest3 => Some (m, d, rest3)) rest2
                 | _ => None
                 end)
              rest
          with
          | Some (m, d, []) =>
              if ((1 <=? y) && (d <=? days_in_month y m))%N
              then Some (y, m, d) else None
          | _ => None
          end
      | None => None
      end
  | _ => None
  end.

Definition month_key_from_date (date_str : pyval) : option str :=
  if negb (truthy date_str) then None
  else
    match date_str with
    | PStr s =>
        match strptime_ymd s with
        | Some (y, m, _) => Some (format_0d 4 y ++ u "-" ++ format_0d 2 m)
        | None => None
        end
    | _ => None
    end.

(** ** Contracts and their monthly progress *)

(** The keys of a contract dict that the aggregation reads, as
    [db_row_to_contract] fills them. *)
Record contract : Type := {
  staff_id : str;               (* "担当" *)
  mediation_start_date : str;   (* "新規媒介締結日" *)
  status_date : str;            (* "ステータス日付" *)
  cancel_reason : pyval;        (* "中止理由" *)
  deal_status : str             (* "取引状況" *)
}.

(** The sentinel "未設定" for a contract without staff. *)
Definition UNASSIGNED : str := [26410; 35373; 23450]%N.
(** The deal status "中止" (canceled). *)
Definition CANCELED : str := [20013; 27490]%N.
(** The key "中止日" (cancellation date) of the cancellation info. *)
Definition K_cancel_date : str := [20013; 27490; 26085]%N.

Record staff_progress : Type := {
  staff_signed : Z;
  staff_canceled : Z;
  staff_net : Z
}.

Record month_progress : Type := {
  signed : Z;
  canceled : Z;
  net : Z;
  staff : list (str * staff_progress)
}.

Definition no_staff_progress : staff_progress :=
  {| staff_signed := 0; staff_canceled := 0; staff_net := 0 |}.

Definition no_progress : month_progress :=
  {| signed := 0; canceled := 0; net := 0; staff := [] |}.

Definition monthly_progress := list (str * month_progress).

(** The body of [if signed_month:] on the month's entry. *)
Definition record_signed (name : str) (entry : month_progress) : month_progress :=
  {| signed := signed entry + 1;
     canceled := canceled entry;
     net := net entry + 1;
     staff := dict_modify (staff entry) name no_staff_progress
                (fun e => {| staff_signed := staff_signed e + 1;
                             staff_canceled := staff_canceled e;
                             staff_net := staff_net e + 1 |}) |}.

(** The body of [if cancel_month:] on the month's entry. *)
Definition record_canceled (name : str) (entry : month_progress) : month_progress :=
  {| signed := signed entry;
     canceled := canceled entry + 1;
     net := net entry - 1;
     staff := dict_modify (staff entry) name no_staff_progress
                (fun e => {| staff_signed := staff_signed e;
                             staff_canceled := staff_canceled e + 1;
                             staff_net := staff_net e - 1 |}) |}.

Definition staff_of (c : contract) : str :=
  match staff_id c with
  | [] => UNASSIGNED
  | name => name
  end.

Definition signed_month (c : contract) : option str :=
  month_key_from_date
    (py_or (PStr (mediation_start_date c)) (PStr (status_date c))).

Definition cancel_month (c : contract) : option str :=
  let cancel_info :=
    match cancel_reason c with
    | PDict d => Some d
    | _ => None
    end in
  let from_info :=
    match cancel_info with
    | Some d => month_key_from_date (py_get d K_cancel_date)
    | None => None
    end in
  match from_info with
  | Some m => Some m
  | None =>
      if str_eqb (deal_status c) CANCELED
      then month_key_from_date (PStr (status_date c))
      else None
  end.

(** One turn of the loop over the contracts. *)
Definition add_contract (monthly : monthly_progress) (c : contract)
  : monthly_progress :=
  let name := staff_of c in
  let monthly :=
    match signed_month c with
    | Some m => dict_modify monthly m no_progress (record_signed name)
    | None => monthly
    end in
  match cancel_month c with
  | Some m => dict_modify monthly m no_progress (record_canceled name)
  | None => monthly
  end.

(** [build_monthly_progress], on what [load_all_contracts()] returns. *)
Definition build_monthly_progress (contracts : list contract) : monthly_progress :=
  fold_left add_contract contracts [].

End Progress.

(* ================================================================== *)
(** * Roll-up of months into years                                     *)
(* ================================================================== *)

Module Rollup.
Import Py Progress.

(** A goal as [load_goals_data] hands it out (every goal it returns went
    through [normalize_goal]): the three normalised keys, then the other
    keys of the stored dict in their order. *)
Record goal : Type := {
  storeTarget : Z;
  staffTargets : list (str * Z);
  includeStaff : list str;
  other_keys : dict
}.

Record goals_data : Type := {
  default : goal;
  monthly : list (str * goal);
  annual : list (str * goal)
}.

(** The literal [{"storeTarget": 0, "staffTargets": {}, "includeStaff": []}]. *)
Definition zero_goal : goal :=
  {| storeTarget := 0; staffTargets := []; includeStaff := []; other_keys := [] |}.

(** [get_goal_for_month(month_key, goals)]; a goal dict has keys, so it
    is never falsy. *)
Definition get_goal_for_month (month_key : str) (goals : goals_data) : goal :=
  match dict_lookup (monthly goals) month_key with
  | Some g => g
  | None => default goals
  end.

(** [get_goal_for_year(year_key, goals, fallback_to_default)]. *)
Definition get_goal_for_year (year_key : str) (goals : goals_data)
  (fallback_to_default : bool) : option goal :=
  match dict_lookup (annual goals) year_key with
  | Some found => Some found
  | None => if fallback_to_default then Some (default goals) else None
  end.

Record yearly_entry : Type := {
  months : list str;
  year_goal : goal;                 (* "goal" *)
  monthlyTargetTotal : Z;
  progress : month_progress
}.

Definition fresh_entry : yearly_entry :=
  {| months := []; year_goal := zero_goal; monthlyTargetTotal := 0;
     progress := no_progress |}.

Definition yearly_progress := list (str * yearly_entry).

(** [month_key.split("-", 1)[0]]. *)
Fixpoint before_dash (s : str) : str :=
  match s with
  | [] => []
  | c :: s' => if (c =? 45)%N then [] else c :: before_dash s'
  end.

Definition has_dash (s : str) : bool := str_contains 45%N s.

(** The loop adding a month's [staffTargets] to the year's. *)
Definition add_staff_targets (acc month_targets : list (str * Z)) : list (str * Z) :=
  fold_left
    (fun acc nt => dict_set acc (fst nt) (dict_get_default acc (fst nt) 0%Z + snd nt)%Z)
    month_targets acc.

(** The loop adding a month's per-staff progress to the year's. *)
Definition add_staff_progress (acc month_staff : list (str * staff_progress))
  : list (str * staff_progress) :=
  fold_left
    (fun acc ns =>
       dict_modify acc (fst ns) no_staff_progress
         (fun e => {| staff_signed := staff_signed e + staff_signed (snd ns);
                      staff_canceled := staff_canceled e + staff_canceled (snd ns);
                      staff_net := staff_net e + staff_net (snd ns) |}))
    month_staff acc.

(** What the body of the loop over the month keys does to the year's
    entry. *)
Definition add_month (month_key : str) (month_goal : goal)
  (month : month_progress) (entry : yearly_entry) : yearly_entry :=
  {| months := if str_in month_key (months entry) then months entry
               else months entry ++ [month_key];
     year_goal :=
       {| storeTarget := storeTarget (year_goal entry) + storeTarget month_goal;
          staffTargets :=
            add_staff_targets (staffTargets (year_goal entry)) (staffTargets month_goal);
          includeStaff :=
            sorted_by str_leb
              (distinct (includeStaff (year_goal entry) ++ includeStaff month_goal));
          other_keys := other_keys (year_goal entry) |};
     monthlyTargetTotal := monthlyTargetTotal entry + storeTarget month_goal;
     progress :=
       {| signed := signed (progress entry) + signed month;
          canceled := canceled (progress entry) + canceled month;
          net := net (progress entry) + net month;
          staff := add_staff_progress (staff (progress entry)) (staff month) |} |}.

Section WithSetOrder.

(** The order in which a [set] of str with the given members is
    iterated. *)
Variable set_order : list str -> list str.

Definition seed_years (goals : goals_data) : yearly_progress :=
  fold_left
    (fun yearly year_key =>
       if truthy (PStr year_key) && negb (has_dash year_key)
       then dict_modify yearly year_key fresh_entry (fun e => e)
       else yearly)
    (keys (annual goals)) [].

Definition sum_months (monthly_progress : Progress.monthly_progress)
  (goals : goals_data) (yearly : yearly_progress) : yearly_progress :=
  fold_left
    (fun yearly month_key =>
       if negb (truthy (PStr month_key)) || negb (has_dash month_key)
       then yearly
       else
         dict_modify yearly (before_dash month_key) fresh_entry
           (add_month month_key
              (get_goal_for_month month_key goals)
              (dict_get_default monthly_progress month_key no_progress)))
    (set_order (keys monthly_progress ++ keys (monthly goals)))
    yearly.

Definition sort_months (yearly : yearly_progress) : yearly_progress :=
  map (fun yi =>
         (fst yi,
          {| months := sorted_by str_leb (months (snd yi));
             year_goal := year_goal (snd yi);
             monthlyTargetTotal := monthlyTargetTotal (snd yi);
             progress := progress (snd yi) |}))
      yearly.

Definition override_goals (goals : goals_data) (yearly : yearly_progress)
  : yearly_progress :=
  map (fun yi =>
         (fst yi,
          match get_goal_for_year (fst yi) goals false with
          | Some annual_goal =>
              {| months := months (snd yi);
                 year_goal := annual_goal;
                 monthlyTargetTotal := monthlyTargetTotal (snd yi);
                 progress := progress (snd yi) |}
          | None => snd yi
          end))
      yearly.

Definition build_yearly_progress (monthly_progress : Progress.monthly_progress)
  (goals : goals_data) : yearly_progress :=
  override_goals goals
    (sort_months (sum_months monthly_progress goals (seed_years goals))).

End WithSetOrder.

End Rollup.

(* ================================================================== *)
(** * Case numbers of customers                                        *)
(* ================================================================== *)

Module CaseNumbers.
Import Py.

(** The keys of a customer dict that the sequencer reads, as
    [db_row_to_customer] fills them (an absent date is the empty str). *)
Record customer : Type := {
  id : str;
  case_number : str;
  inquiry_date : str;
  created_at : str
}.

(** [{"sell": "S", "buy": "B", "investment": "R"}.get(category, "X")]. *)
Definition prefix_of (category : str) : str :=
  dict_get_default
    [(u "sell", u "S"); (u "buy", u "B"); (u "investment", u "R")]
    category (u "X").

(** [str(year)[-2:] if year >= 2000 else str(year)]. *)
Definition year_short (year : Z) : str :=
  if (2000 <=? year)%Z then last2 (str_of_Z year) else str_of_Z year.

(** [x or default] for str. *)
Definition str_or (x default : str) : str :=
  match x with
  | [] => default
  | _ => x
  end.

(** The counting loop of [generate_case_number_for_date], with its
    [break]. *)
Fixpoint count_until (sorted_customers : list customer) (new_date : str) (seq : N) : N :=
  match sorted_customers with
  | [] => seq
  | c :: rest =>
      if str_leb (str_or (inquiry_date c) []) new_date
      then count_until rest new_date (seq + 1)
      else seq
  end.

Definition generate_case_number_for_date (category : str) (year : Z)
  (new_date : str) (existing_customers : list customer) : str :=
  let prefix := prefix_of category in
  let sorted_customers :=
    sorted_by
      (fun a b => str_leb (str_or (inquiry_date a) []) (str_or (inquiry_date b) []))
      (filter (fun c => truthy (PStr (inquiry_date c))) existing_customers) in
  let seq := count_until sorted_customers new_date 1 in
  prefix ++ year_short year ++ format_0d 4 seq.

(** [re.search(r"(\d{4})$", s)]: four digits at the end of [s], or just
    before a final newline. *)
Definition last_four_digits (s : str) : option N :=
  let tail4 t := digits_value (skipn (List.length t - 4) t) 0 in
  let at_end t := if Nat.leb 4 (List.length t) then tail4 t else None in
  match at_end s with
  | Some n => Some n
  | None =>
      match rev s with
      | 10%N :: r => at_end (rev r)
      | _ => None
      end
  end.

(** The local function [case_seq] of [reassign_case_numbers]. *)
Definition case_seq (value : str) : Z :=
  match value with
  | [] => 9999
  | _ =>
      match last_four_digits value with
      | Some n => Z.of_N n
      | None => 9999
      end
  end.

(** The sort key of [reassign_case_numbers]. *)
Definition sort_key (c : customer) : str * Z * str * str :=
  (str_or (inquiry_date c) (u "9999-99-99"),
   case_seq (case_number c),
   str_or (case_number c) [],
   str_or (created_at c) []).

Definition str_ltb (a b : str) : bool := str_leb a b && negb (str_eqb a b).

(** [<=] on the key tuples: the first differing component decides. *)
Definition key_leb (a b : str * Z * str * str) : bool :=
  let '(d1, s1, n1, c1) := a in
  let '(d2, s2, n2, c2) := b in
  if str_ltb d1 d2 then true
  else if negb (str_eqb d1 d2) then false
  else if (s1 <? s2)%Z then true
  else if negb (s1 =? s2)%Z then false
  else if str_ltb n1 n2 then true
  else if negb (str_eqb n1 n2) then false
  else str_leb c1 c2.

(** [UPDATE customers SET case_number = %s WHERE id = %s::uuid]. *)
Definition update_case_number (new_case_number target : str) (rows : list customer)
  : list customer :=
  map (fun r =>
         if str_eqb (id r) target
         then {| id := id r; case_number := new_case_number;
                 inquiry_date := inquiry_date r; created_at := created_at r |}
         else r)
      rows.

(** The loop [for idx, customer in enumerate(sorted_customers, 1)]. *)
Fixpoint renumber (prefix yy : str) (idx : N) (sorted_customers rows : list customer)
  : list customer :=
  match sorted_customers with
  | [] => rows
  | c :: rest =>
      renumber prefix yy (idx + 1) rest
        (update_case_number (prefix ++ yy ++ format_0d 4 idx) (id c) rows)
  end.

Section WithStoreOrder.

(** The order in which the store returns the rows of a partition for
    [ORDER BY case_number DESC]. *)
Variable load_order : list customer -> list customer.

(** [reassign_case_numbers] on the rows of one (category, year)
    partition: the number it returns and the rows afterwards. *)
Definition reassign_case_numbers (category : str) (year : Z) (rows : list customer)
  : N * list customer :=
  let customers := load_order rows in
  match customers with
  | [] => (0%N, rows)
  | _ =>
      let sorted_customers :=
        sorted_by (fun a b => key_leb (sort_key a) (sort_key b)) customers in
      (N.of_nat (List.length sorted_customers),
       renumber (prefix_of category) (year_short year) 1 sorted_customers rows)
  end.

End WithStoreOrder.

End CaseNumbers.

(* ================================================================== *)
(** * Properties of the runtime model                               *)
(* ================================================================== *)

Module PyFacts.
Import Py.

Lemma str_eqb_eq (a b : str) : str_eqb a b = true <-> a = b.
Proof.
  revert b; induction a as [|x a IH]; intros [|y b]; simpl; split; intro H;
    try reflexivity; try discriminate.
  - apply andb_true_iff in H as [Hx Hab].
    apply N.eqb_eq in Hx. apply IH in Hab. now subst.
  - injection H as -> ->. rewrite N.eqb_refl. simpl. now apply IH.
Qed.

Lemma str_eqb_refl (a : str) : str_eqb a a = true.
Proof. now apply str_eqb_eq. Qed.

Lemma str_eqb_neq (a b : str) : str_eqb a b = false <-> a <> b.
Proof.
  split.
  - intros H E. apply str_eqb_eq in E. congruence.
  - intros H. destruct (str_eqb a b) eqn:E; [|reflexivity].
    apply str_eqb_eq in E. contradiction.
Qed.

Lemma str_eqb_sym (a b : str) : str_eqb a b = str_eqb b a.
Proof.
  destruct (str_eqb a b) eqn:E.
  - apply str_eqb_eq in E. subst. symmetry. apply str_eqb_refl.
  - symmetry. apply str_eqb_neq. apply str_eqb_neq in E. congruence.
Qed.

Lemma str_eq_dec (a b : str) : {a = b} + {a <> b}.
Proof. apply list_eq_dec, N.eq_dec. Defined.

(** ** dict_lookup / dict_set *)

Section Dict.
Variable V : Type.
Implicit Types (d : list (str * V)) (k : str) (v : V).

Lemma lookup_set_same d k v : dict_lookup (dict_set d k v) k = Some v.
Proof.
  induction d as [|[k' v'] d IH]; simpl.
  - now rewrite str_eqb_refl.
  - destruct (str_eqb k' k) eqn:E; simpl; rewrite E; auto.
Qed.

Lemma lookup_set_other d k k' v :
  k <> k' -> dict_lookup (dict_set d k v) k' = dict_lookup d k'.
Proof.
  intros Hne. induction d as [|[k0 v0] d IH]; simpl.
  - apply str_eqb_neq in Hne. now rewrite Hne.
  - destruct (str_eqb k0 k) eqn:E; simpl.
    + apply str_eqb_eq in E. subst k0.
      apply str_eqb_neq in Hne. now rewrite Hne.
    + destruct (str_eqb k0 k'); auto.
Qed.

Lemma lookup_none_iff d k : dict_lookup d k = None <-> ~ In k (keys d).
Proof.
  induction d as [|[k0 v0] d IH]; simpl.
  - tauto.
  - destruct (str_eqb k0 k) eqn:E.
    + apply str_eqb_eq in E. split; [discriminate | intros H; exfalso; auto].
    + apply str_eqb_neq in E. rewrite IH. tauto.
Qed.

Lemma lookup_some_in d k v : dict_lookup d k = Some v -> In (k, v) d.
Proof.
  induction d as [|[k0 v0] d IH]; simpl; [discriminate|].
  destruct (str_eqb k0 k) eqn:E.
  - apply str_eqb_eq in E. intros [= ->]. subst. now left.
  - intros H. right. auto.
Qed.

Lemma lookup_in_keys d k v : dict_lookup d k = Some v -> In k (keys d).
Proof. intros H. apply lookup_some_in in H. now apply (in_map fst) in H. Qed.

Lemma set_fresh d k v : ~ In k (keys d) -> dict_set d k v = d ++ [(k, v)].
Proof.
  induction d as [|[k0 v0] d IH]; simpl; intros H; [reflexivity|].
  destruct (str_eqb k0 k) eqn:E.
  - apply str_eqb_eq in E. exfalso. auto.
  - f_equal. apply IH. tauto.
Qed.

Lemma keys_set_present d k v : In k (keys d) -> keys (dict_set d k v) = keys d.
Proof.
  induction d as [|[k0 v0] d IH]; simpl; intros H; [contradiction|].
  destruct (str_eqb k0 k) eqn:E; simpl; [reflexivity|].
  f_equal. apply IH. destruct H as [H|H]; [|exact H].
  apply str_eqb_neq in E. contradiction.
Qed.

Lemma keys_set d k v :
  keys (dict_set d k v) = if str_in k (keys d) then keys d else keys d ++ [k].
Proof.
  induction d as [|[k0 v0] d IH]; simpl; [reflexivity|].
  rewrite (str_eqb_sym k k0).
  destruct (str_eqb k0 k) eqn:E; simpl; [reflexivity|].
  unfold keys in *. rewrite IH. unfold str_in.
  destruct (existsb (str_eqb k) (map fst d)); reflexivity.
Qed.

Lemma str_in_iff (x : str) (l : list str) : str_in x l = true <-> In x l.
Proof.
  unfold str_in. rewrite existsb_exists. split.
  - intros (y & Hy & E). apply str_eqb_eq in E. now subst.
  - intros H. exists x. split; [exact H | apply str_eqb_refl].
Qed.

Lemma in_keys_set d k v k' : In k' (keys (dict_set d k v)) <-> k' = k \/ In k' (keys d).
Proof.
  rewrite keys_set. destruct (str_in k (keys d)) eqn:E.
  - apply str_in_iff in E. split; [tauto|]. intros [->|H]; auto.
  - rewrite in_app_iff. simpl. intuition.
Qed.

Lemma NoDup_keys_set d k v : NoDup (keys d) -> NoDup (keys (dict_set d k v)).
Proof.
  intros H. rewrite keys_set. destruct (str_in k (keys d)) eqn:E; [exact H|].
  assert (~ In k (keys d)) as Hn.
  { intros Hin. apply str_in_iff in Hin. congruence. }
  clear E. induction (keys d) as [|x l IH]; simpl.
  - constructor; [tauto | constructor].
  - inversion H; subst. constructor.
    + rewrite in_app_iff. simpl. simpl in Hn. intuition.
    + apply IH; auto. simpl in Hn. tauto.
Qed.

Lemma update_fresh d other :
  NoDup (keys other) ->
  (forall k, In k (keys other) -> ~ In k (keys d)) ->
  dict_update d other = d ++ other.
Proof.
  unfold dict_update. revert d.
  induction other as [|[k v] o IH]; intros d Hnd Hfresh; simpl.
  - now rewrite app_nil_r.
  - simpl in Hnd. inversion Hnd; subst.
    rewrite set_fresh by (apply Hfresh; now left).
    rewrite IH; auto.
    + now rewrite <- app_assoc.
    + intros k' Hk'. unfold keys. rewrite map_app, in_app_iff. simpl.
      intros [H|[H|[]]].
      * apply (Hfresh k'); [now right | exact H].
      * subst. contradiction.
Qed.

End Dict.

(** ** strip *)

Lemma lstrip_head c s t : lstrip s = c :: t -> is_space c = false.
Proof.
  induction s as [|x s IH]; simpl; [discriminate|].
  destruct (is_space x) eqn:E; [exact IH|]. now intros [= <- _].
Qed.

Lemma lstrip_fixed s : (forall c t, s = c :: t -> is_space c = false) -> lstrip s = s.
Proof.
  destruct s as [|c t]; simpl; [reflexivity|].
  intros H. now rewrite (H c t eq_refl).
Qed.

Lemma lstrip_idem s : lstrip (lstrip s) = lstrip s.
Proof. apply lstrip_fixed. intros c t. apply lstrip_head. Qed.

Lemma lstrip_suffix s : exists sp, s = sp ++ lstrip s.
Proof.
  induction s as [|x s [sp IH]]; simpl.
  - now exists [].
  - destruct (is_space x).
    + exists (x :: sp). simpl. now f_equal.
    + now exists [].
Qed.

Lemma strip_fixed s : lstrip (strip s) = strip s /\ lstrip (rev (strip s)) = rev (strip s).
Proof.
  unfold strip. split.
  - apply lstrip_fixed. intros c t Hct.
    destruct (lstrip_suffix (rev (lstrip s))) as [sp Hsp].
    apply (f_equal (@rev N)) in Hsp. rewrite rev_involutive, rev_app_distr in Hsp.
    rewrite Hct in Hsp. simpl in Hsp.
    now apply lstrip_head in Hsp.
  - rewrite rev_involutive. apply lstrip_idem.
Qed.

Lemma strip_idem s : strip (strip s) = strip s.
Proof.
  destruct (strip_fixed s) as [H1 H2].
  unfold strip at 1. rewrite H1, H2. apply rev_involutive.
Qed.

(** ** Decimal text *)

Lemma length_digits_w w n : List.length (digits_w w n) = w.
Proof.
  revert n. induction w as [|w IH]; intros n; simpl; [reflexivity|].
  rewrite length_app, IH. simpl. lia.
Qed.

Lemma digits_value_app a b acc :
  digits_value (a ++ b) acc =
  match digits_value a acc with
  | Some v => digits_value b v
  | None => None
  end.
Proof.
  revert acc. induction a as [|c a IH]; intros acc; simpl; [reflexivity|].
  destruct (digit_value c); [apply IH | reflexivity].
Qed.

Lemma digit_value_char d : (d < 10)%N -> digit_value (digit_char d) = Some d.
Proof.
  intros H.
  assert (In d [0; 1; 2; 3; 4; 5; 6; 7; 8; 9]%N) as Hin.
  { destruct d as [|p]; [now left|].
    do 9 (destruct p as [p|p|]; simpl; auto 12; try lia). }
  simpl in Hin.
  repeat (destruct Hin as [<-|Hin]; [vm_compute; reflexivity|]).
  contradiction.
Qed.

Lemma digit_value_bound c v : digit_value c = Some v -> (v <= 9)%N.
Proof.
  unfold digit_value.
  destruct (find _ decimal_zeros) as [zero|] eqn:E; [|discriminate].
  intros [= <-]. apply find_some in E. destruct E as [_ E].
  apply andb_prop in E. destruct E as [E1 E2].
  apply N.leb_le in E1, E2. lia.
Qed.

(** The ASCII digits are read as themselves. *)
Lemma digit_value_ascii c : (48 <= c <= 57)%N -> digit_value c = Some (c - 48)%N.
Proof.
  intros H. replace c with (digit_char (c - 48)) at 1 by (unfold digit_char; lia).
  apply digit_value_char. lia.
Qed.

Lemma digits_value_digits_w w n acc :
  digits_value (digits_w w n) acc = Some (acc * 10 ^ N.of_nat w + n mod 10 ^ N.of_nat w)%N.
Proof.
  revert n acc. induction w as [|w IH]; intros n acc.
  - simpl. rewrite N.mod_1_r. f_equal. lia.
  - cbn [digits_w]. rewrite digits_value_app, IH.
    cbn [digits_value]. rewrite digit_value_char by (apply N.mod_lt; lia).
    f_equal. rewrite Nat2N.inj_succ, N.pow_succ_r'.
    rewrite (N.Div0.mod_mul_r n 10 (10 ^ N.of_nat w)). lia.
Qed.

Lemma ndigits_bound w fuel n :
  (1 <= w)%nat -> (n < 10 ^ N.of_nat w)%N -> (ndigits fuel n <= w)%nat.
Proof.
  revert w n. induction fuel as [|fuel IH]; intros w n Hw Hn; simpl; [exact Hw|].
  destruct (N.ltb_spec n 10) as [Hlt|Hge]; [exact Hw|].
  destruct w as [|w]; [lia|].
  destruct w as [|w].
  { simpl in Hn. lia. }
  apply le_n_S. apply IH; [lia|].
  rewrite Nat2N.inj_succ, N.pow_succ_r' in Hn.
  apply N.Div0.div_lt_upper_bound. exact Hn.
Qed.

Lemma format_0d_small w n :
  (1 <= w)%nat -> (n < 10 ^ N.of_nat w)%N -> format_0d w n = digits_w w n.
Proof.
  intros Hw Hn. unfold format_0d.
  now rewrite Nat.max_l by (apply ndigits_bound; assumption).
Qed.

(** ** The order on str *)

Lemma str_leb_refl (a : str) : str_leb a a = true.
Proof.
  induction a as [|x a IH]; simpl; [reflexivity|].
  now rewrite N.ltb_irrefl, N.eqb_refl.
Qed.

Lemma str_leb_total (a b : str) : str_leb a b = true \/ str_leb b a = true.
Proof.
  revert b. induction a as [|x a IH]; intros [|y b]; simpl; auto.
  destruct (N.ltb_spec x y) as [Hxy|Hxy]; [now left|].
  destruct (N.ltb_spec y x) as [Hyx|Hyx]; [now right|].
  assert (x = y) as -> by lia. rewrite N.eqb_refl. apply IH.
Qed.

Lemma str_leb_trans (a b c : str) :
  str_leb a b = true -> str_leb b c = true -> str_leb a c = true.
Proof.
  revert b c. induction a as [|x a IH]; intros [|y b] [|z c]; simpl; auto;
    try discriminate.
  destruct (N.ltb_spec x y) as [Hxy|Hxy].
  - intros _. destruct (N.ltb_spec y z) as [Hyz|Hyz].
    + intros _. destruct (N.ltb_spec x z); [reflexivity | lia].
    + destruct (N.eqb_spec y z) as [->|]; [|discriminate].
      intros _. destruct (N.ltb_spec x z); [reflexivity | lia].
  - destruct (N.eqb_spec x y) as [->|]; [|discriminate].
    intros Hab. destruct (N.ltb_spec y z) as [Hyz|Hyz]; [reflexivity|].
    destruct (N.eqb_spec y z) as [->|]; [|discriminate].
    now apply IH.
Qed.

Lemma str_leb_antisym (a b : str) :
  str_leb a b = true -> str_leb b a = true -> a = b.
Proof.
  revert b. induction a as [|x a IH]; intros [|y b]; simpl; auto; try discriminate.
  destruct (N.ltb_spec x y) as [Hxy|Hxy].
  - intros _. destruct (N.ltb_spec y x); [lia|].
    destruct (N.eqb_spec y x); [lia | discriminate].
  - destruct (N.eqb_spec x y) as [->|]; [|discriminate].
    rewrite N.ltb_irrefl, N.eqb_refl. intros H1 H2. f_equal. now apply IH.
Qed.

(** ** The stable sort *)

Section Sorting.
Variable A : Type.
Variable leb : A -> A -> bool.

Definition ordered (a b : A) : Prop := leb a b = true.
Definition strictly (a b : A) : Prop := leb a b = true /\ leb b a = false.

Lemma insert_by_perm x l : Permutation (insert_by leb x l) (x :: l).
Proof.
  induction l as [|y l IH]; simpl; [reflexivity|].
  destruct (leb y x); [|reflexivity].
  rewrite IH. apply perm_swap.
Qed.

Lemma sorted_by_perm_from l placed :
  Permutation (fold_left (fun placed x => insert_by leb x placed) l placed)
              (placed ++ l).
Proof.
  revert placed. induction l as [|x l IH]; intros placed; simpl.
  - now rewrite app_nil_r.
  - rewrite IH, insert_by_perm.
    change (x :: placed) with ([x] ++ placed).
    rewrite (Permutation_app_comm [x] placed), <- app_assoc. reflexivity.
Qed.

Lemma sorted_by_perm l : Permutation (sorted_by leb l) l.
Proof. unfold sorted_by. now rewrite sorted_by_perm_from. Qed.

Hypothesis leb_total : forall a b, leb a b = true \/ leb b a = true.
Hypothesis leb_trans : forall a b c, leb a b = true -> leb b c = true -> leb a c = true.

Lemma insert_by_sorted x l :
  StronglySorted ordered l -> StronglySorted ordered (insert_by leb x l).
Proof.
  induction 1 as [|y l Hs IH Hall]; simpl.
  - constructor; constructor.
  - destruct (leb y x) eqn:E.
    + constructor; [exact IH|].
      rewrite Forall_forall. intros z Hz.
      apply (Permutation_in _ (insert_by_perm x l)) in Hz.
      destruct Hz as [<-|Hz]; [exact E|].
      rewrite Forall_forall in Hall. now apply Hall.
    + assert (ordered x y) as Hxy.
      { destruct (leb_total x y) as [H|H]; [exact H | congruence]. }
      constructor; [now constructor|].
      constructor; [exact Hxy|].
      rewrite Forall_forall in *. intros z Hz.
      eapply leb_trans; [exact Hxy|]. now apply Hall.
Qed.

Lemma sorted_by_sorted l : StronglySorted ordered (sorted_by leb l).
Proof.
  unfold sorted_by.
  assert (forall placed, StronglySorted ordered placed ->
            StronglySorted ordered (fold_left (fun placed x => insert_by leb x placed) l placed))
    as H.
  { induction l as [|x l IH]; intros placed Hp; simpl; [exact Hp|].
    apply IH. now apply insert_by_sorted. }
  apply H. constructor.
Qed.

End Sorting.

(** A strictly increasing list is the only sorted arrangement of its
    elements. *)
Lemma sorted_unique (A : Type) (leb : A -> A -> bool) (l1 l2 : list A) :
  StronglySorted (strictly leb) l1 -> StronglySorted (ordered leb) l2 ->
  Permutation l1 l2 -> l2 = l1.
Proof.
  intros H1. revert l2. induction H1 as [|a l1 Hs IH Hall]; intros l2 H2 Hp.
  - apply Permutation_nil in Hp. now subst.
  - destruct l2 as [|h l2].
    { apply Permutation_sym, Permutation_nil in Hp. discriminate. }
    inversion H2 as [|? ? Hs2 Hall2]; subst.
    rewrite Forall_forall in Hall, Hall2.
    assert (h = a) as ->.
    { assert (In h (a :: l1)) as Hh.
      { apply (Permutation_in _ (Permutation_sym Hp)). now left. }
      destruct Hh as [->|Hh]; [reflexivity|].
      assert (In a (h :: l2)) as Ha.
      { apply (Permutation_in _ Hp). now left. }
      destruct Ha as [->|Ha]; [reflexivity|].
      destruct (Hall h Hh) as [_ Hha]. specialize (Hall2 a Ha).
      unfold ordered in Hall2. congruence. }
    f_equal. apply IH; [exact Hs2|]. now apply Permutation_cons_inv in Hp.
Qed.

End PyFacts.

(* ================================================================== *)
(** * Properties of goal and sales normalisation                    *)
(* ================================================================== *)

Module GoalsFacts.
Import Py PyFacts Goals.

(** ** The keys of a goal *)

Lemma eqb_sT_sTs : str_eqb K_storeTarget K_staffTargets = false.
Proof.
  reflexivity.
Qed.
Lemma eqb_sT_iS : str_eqb K_storeTarget K_includeStaff = false.
Proof.
  reflexivity.
Qed.
Lemma eqb_sTs_sT : str_eqb K_staffTargets K_storeTarget = false.
Proof.
  reflexivity.
Qed.
Lemma eqb_sTs_iS : str_eqb K_staffTargets K_includeStaff = false.
Proof.
  reflexivity.
Qed.
Lemma eqb_iS_sT : str_eqb K_includeStaff K_storeTarget = false.
Proof.
  reflexivity.
Qed.
Lemma eqb_iS_sTs : str_eqb K_includeStaff K_staffTargets = false.
Proof.
  reflexivity.
Qed.

Create Rewrite HintDb goalkeys.
#[local] Hint Rewrite str_eqb_refl eqb_sT_sTs eqb_sT_iS eqb_sTs_sT eqb_sTs_iS
  eqb_iS_sT eqb_iS_sTs : goalkeys.

#[local] Opaque K_storeTarget K_staffTargets K_includeStaff.

Ltac keys_simpl :=
  try unfold py_get; try unfold dict_get_default;
  repeat (progress (cbn [dict_lookup dict_set fst snd app];
                    autorewrite with goalkeys)).

(** A goal dict in the making: the three keys of the literal first, then
    the keys the input brought, each once. *)
Definition three (a b c : pyval) : dict :=
  [(K_storeTarget, a); (K_staffTargets, b); (K_includeStaff, c)].

Definition reserved (k : str) : Prop :=
  k = K_storeTarget \/ k = K_staffTargets \/ k = K_includeStaff.

Inductive shaped : dict -> Prop :=
| shaped_intro a b c rest :
    NoDup (keys rest) ->
    (forall k, In k (keys rest) -> ~ reserved k) ->
    shaped (three a b c ++ rest).

Lemma shaped_default : shaped DEFAULT_GOAL.
Proof.
  change DEFAULT_GOAL with (three (PInt 0) (PDict []) (PList []) ++ []).
  constructor; [constructor | intros k []].
Qed.

Lemma shaped_set d k v : shaped d -> shaped (dict_set d k v).
Proof.
  intros [a b c rest Hnd Hres]. unfold three.
  cbn [dict_set app].
  destruct (str_eqb K_storeTarget k) eqn:E1.
  { now apply (@shaped_intro v b c rest). }
  destruct (str_eqb K_staffTargets k) eqn:E2.
  { now apply (@shaped_intro a v c rest). }
  destruct (str_eqb K_includeStaff k) eqn:E3.
  { now apply (@shaped_intro a b v rest). }
  apply (@shaped_intro a b c (dict_set rest k v)).
  - now apply NoDup_keys_set.
  - intros k' Hk'. apply in_keys_set in Hk' as [->|Hk']; [|now apply Hres].
    apply str_eqb_neq in E1, E2, E3. unfold reserved. intuition congruence.
Qed.

Lemma shaped_update d other : shaped d -> shaped (dict_update d other).
Proof.
  unfold dict_update. revert d.
  induction other as [|[k v] o IH]; intros d H; simpl; [exact H|].
  apply IH. now apply shaped_set.
Qed.

Section WithParsers.

Variable int_of_str : str -> option Z.
Variable float_of_str : str -> option float.

#[local] Abbreviation normalize_goal := (normalize_goal int_of_str).
#[local] Abbreviation staff_targets_loop := (staff_targets_loop int_of_str).

(** A cleaned [staffTargets]: int values, none negative, each name once. *)
Definition clean_targets (d : dict) : Prop :=
  NoDup (keys d) /\ Forall (fun kv => exists z, snd kv = PInt z /\ (0 <= z)%Z) d.

(** A cleaned [includeStaff]: stripped names, none empty. *)
Definition clean_names (l : list pyval) : Prop :=
  Forall (fun v => exists s, v = PStr s /\ strip s = s /\ s <> []) l.

Lemma clean_targets_set d k z :
  clean_targets d -> (0 <= z)%Z -> clean_targets (dict_set d k (PInt z)).
Proof.
  intros [Hnd Hall] Hz. split; [now apply NoDup_keys_set|].
  clear Hnd. induction d as [|[k0 v0] d IH]; simpl.
  - constructor; [|constructor]. now exists z.
  - inversion Hall; subst. destruct (str_eqb k0 k).
    + constructor; [now exists z | assumption].
    + constructor; auto.
Qed.

Lemma staff_targets_loop_clean items acc r :
  clean_targets acc -> staff_targets_loop items acc = Ok r -> clean_targets r.
Proof.
  revert acc. induction items as [|[name target] rest IH]; intros acc Hacc; simpl.
  - now intros [= <-].
  - destruct (py_int int_of_str target) as [z|[]]; simpl; try discriminate;
      try (now apply IH).
    apply IH. apply clean_targets_set; [exact Hacc | lia].
Qed.

Lemma staff_targets_loop_fixed items acc :
  clean_targets (acc ++ items) ->
  staff_targets_loop items acc = Ok (acc ++ items).
Proof.
  revert acc. induction items as [|[name target] rest IH]; intros acc Hc; simpl.
  - now rewrite app_nil_r.
  - destruct Hc as [Hnd Hall].
    assert (exists z, target = PInt z /\ (0 <= z)%Z) as (z & -> & Hz).
    { rewrite Forall_app in Hall. destruct Hall as [_ Hall].
      inversion Hall; subst. assumption. }
    simpl. rewrite Z.max_r by exact Hz.
    rewrite set_fresh.
    + replace (acc ++ (name, PInt z) :: rest) with ((acc ++ [(name, PInt z)]) ++ rest)
        by now rewrite <- app_assoc.
      apply IH. rewrite <- app_assoc. now split.
    + unfold keys in Hnd. rewrite map_app in Hnd. simpl in Hnd.
      apply NoDup_remove_2 in Hnd. intros Hin. apply Hnd.
      apply in_or_app. now left.
Qed.

Lemma include_staff_loop_clean names : clean_names (include_staff_loop names).
Proof.
  induction names as [|v rest IH]; simpl; [constructor|].
  destruct v; try exact IH.
  destruct (strip s) as [|c t] eqn:E; simpl; [exact IH|].
  constructor; [|exact IH].
  exists (c :: t). repeat split; [|discriminate].
  rewrite <- E. apply strip_idem.
Qed.

Lemma include_staff_loop_fixed names :
  clean_names names -> include_staff_loop names = names.
Proof.
  induction 1 as [|v rest (s & -> & Hs & Hne) _ IH]; simpl; [reflexivity|].
  rewrite Hs. destruct s; [contradiction|]. simpl. now rewrite IH.
Qed.

(** What [normalize_goal] does once [normalized] holds the input's keys. *)
Definition finish (normalized : dict) : result pyval :=
  store_target <-
    try_except
      (z <- py_int int_of_str (py_or (py_get normalized K_storeTarget) (PInt 0)) ;;
       Ok (Z.max 0 z))
      (Ok 0%Z) ;;
  let normalized := dict_set normalized K_storeTarget (PInt store_target) in
  items <- py_items (py_or (py_get normalized K_staffTargets) (PDict [])) ;;
  staff_targets <- staff_targets_loop items [] ;;
  let normalized := dict_set normalized K_staffTargets (PDict staff_targets) in
  names <- py_iter (py_or (py_get normalized K_includeStaff) (PList [])) ;;
  let normalized :=
    dict_set normalized K_includeStaff (PList (include_staff_loop names)) in
  Ok (PDict normalized).

Lemma normalize_goal_finish goal :
  normalize_goal goal =
  finish match goal with
         | PDict g => dict_update DEFAULT_GOAL g
         | _ => DEFAULT_GOAL
         end.
Proof. reflexivity. Qed.

(** The shape of every goal [normalize_goal] returns. *)
Inductive normal_goal : pyval -> Prop :=
| normal_goal_intro st stf inc rest :
    (0 <= st)%Z -> clean_targets stf -> clean_names inc ->
    NoDup (keys rest) -> (forall k, In k (keys rest) -> ~ reserved k) ->
    normal_goal (PDict (three (PInt st) (PDict stf) (PList inc) ++ rest)).

Lemma finish_normal d y : shaped d -> finish d = Ok y -> normal_goal y.
Proof.
  intros [a b c rest Hnd Hres]. unfold finish, three. keys_simpl.
  destruct (try_except _ _) as [st|e] eqn:Est; [|discriminate].
  assert (0 <= st)%Z as Hst.
  { revert Est.
    destruct (py_int int_of_str (py_or a (PInt 0))) as [z|[]]; simpl;
      intros Est; inversion Est; lia. }
  cbn [bind]. keys_simpl.
  destruct (py_items _) as [items|e]; [|discriminate]. cbn [bind].
  destruct (staff_targets_loop items []) as [stf|e] eqn:Estf; [|discriminate].
  cbn [bind]. keys_simpl.
  destruct (py_iter _) as [names|e]; [|discriminate]. cbn [bind]. keys_simpl.
  intros [= <-].
  apply (@normal_goal_intro st stf (include_staff_loop names) rest); auto.
  - eapply staff_targets_loop_clean; [|exact Estf]. split; constructor.
  - apply include_staff_loop_clean.
Qed.

Lemma normalize_goal_normal goal y : normalize_goal goal = Ok y -> normal_goal y.
Proof.
  rewrite normalize_goal_finish. apply finish_normal.
  destruct goal; try apply shaped_default. apply shaped_update, shaped_default.
Qed.

Lemma normalize_goal_fixed y : normal_goal y -> normalize_goal y = Ok y.
Proof.
  intros [st stf inc rest Hst Hstf Hinc Hnd Hres].
  rewrite normalize_goal_finish.
  assert (dict_update DEFAULT_GOAL (three (PInt st) (PDict stf) (PList inc) ++ rest)
          = three (PInt st) (PDict stf) (PList inc) ++ rest) as ->.
  { unfold dict_update. rewrite fold_left_app.
    change (fold_left _ (three _ _ _) DEFAULT_GOAL)
      with (dict_update DEFAULT_GOAL (three (PInt st) (PDict stf) (PList inc))).
    assert (dict_update DEFAULT_GOAL (three (PInt st) (PDict stf) (PList inc))
            = three (PInt st) (PDict stf) (PList inc)) as ->.
    { unfold dict_update, three, DEFAULT_GOAL. cbn [fold_left]. keys_simpl. reflexivity. }
    apply update_fresh; [exact Hnd|].
    intros k Hk Hin. apply (Hres k Hk). unfold reserved.
    simpl in Hin. intuition. }
  unfold finish, three. keys_simpl.
  assert (py_int int_of_str (py_or (PInt st) (PInt 0)) = Ok st) as ->.
  { unfold py_or. simpl. destruct (Z.eqb_spec st 0) as [->|]; reflexivity. }
  cbn [bind try_except]. rewrite Z.max_r by exact Hst. keys_simpl.
  assert (py_items (py_or (PDict stf) (PDict [])) = Ok stf) as ->.
  { destruct stf; reflexivity. }
  cbn [bind].
  rewrite (@staff_targets_loop_fixed stf []) by exact Hstf.
  cbn [bind app]. keys_simpl.
  assert (py_iter (py_or (PList inc) (PList [])) = Ok inc) as ->.
  { destruct inc; reflexivity. }
  cbn [bind]. keys_simpl.
  now rewrite include_staff_loop_fixed.
Qed.

(** C6: [normalize_goal] is idempotent: normalising a normalised goal
    gives the goal back, and an input that is rejected with an exception
    is rejected with the same exception; extra keys of the input are kept
    in both passes. *)
Theorem normalize_goal_idempotent (x : pyval) :
  bind (normalize_goal x) normalize_goal = normalize_goal x.
Proof.
  destruct (normalize_goal x) as [y|e] eqn:E; simpl; [|reflexivity].
  apply normalize_goal_fixed. eapply normalize_goal_normal; exact E.
Qed.

(** ** What the normalisers do on malformed fields *)

(** C5: the normalisers do raise.  A [staffTargets] (or [staff]) that is a
    non-empty list has no [items()], an [includeStaff] that is a number
    cannot be iterated, and [int()] of an infinite float overflows; none
    of these exceptions is caught. *)
Theorem normalize_raises_on_malformed_fields :
  normalize_goal (PDict [(K_staffTargets, PList [PInt 1])]) = Raise AttributeError
  /\ normalize_goal (PDict [(K_includeStaff, PInt 1)]) = Raise TypeError
  /\ normalize_goal (PDict [(K_storeTarget, PFloat (S754_infinity false))])
     = Raise OverflowError
  /\ normalize_sales float_of_str (PDict [(K_staff, PList [PInt 1])])
     = Raise AttributeError
  /\ normalize_sales float_of_str (PDict [(K_store, PInt (10 ^ 400))])
     = Raise OverflowError.
Proof. repeat split; vm_compute; reflexivity. Qed.

(** ** The store of a sales record *)

Definition store_field (rec : pyval) : pyval :=
  match rec with
  | PDict r => py_get r K_store
  | _ => PNone
  end.

Definition staff_field (rec : pyval) : pyval :=
  match rec with
  | PDict r => py_get r K_staff
  | _ => PNone
  end.

(** The items of the input's staff mapping ([{}] standing in for a
    missing or falsy one). *)
Definition staff_items (rec : pyval) : dict :=
  match rec with
  | PDict r =>
      match py_or (py_get r K_staff) (PDict []) with
      | PDict items => items
      | _ => []
      end
  | _ => []
  end.

(** The cleaned staff mapping: the entries whose value [float()] reads,
    in their order, each with [max(0, float(value))]. *)
Definition cleaned_staff (items : dict) : dict :=
  flat_map
    (fun kv =>
       match py_float float_of_str (snd kv) with
       | Ok f => [(fst kv, max0_float f)]
       | Raise _ => []
       end)
    items.

Lemma sales_staff_loop_cleaned items acc staff :
  sales_staff_loop float_of_str items acc = Ok staff ->
  NoDup (keys items) ->
  (forall k, In k (keys items) -> ~ In k (keys acc)) ->
  staff = acc ++ cleaned_staff items.
Proof.
  revert acc. induction items as [|[name val] rest IH]; intros acc Hloop Hnd Hfresh.
  - simpl in Hloop. injection Hloop as <-. simpl. now rewrite app_nil_r.
  - cbn [sales_staff_loop] in Hloop. cbn [cleaned_staff flat_map fst snd].
    fold (cleaned_staff rest).
    inversion Hnd as [|? ? Hnotin Hnd']; subst.
    destruct (py_float float_of_str val) as [f|e].
    + cbn [bind try_except] in Hloop.
      rewrite set_fresh in Hloop by (apply Hfresh; now left).
      apply IH in Hloop; [| exact Hnd' |].
      * rewrite Hloop, <- app_assoc. reflexivity.
      * intros k Hk. unfold keys. rewrite map_app, in_app_iff. simpl.
        intros [H|[H|[]]].
        -- apply (Hfresh k); [now right | exact H].
        -- subst. contradiction.
    + destruct e; cbn [bind try_except] in Hloop; try discriminate.
      * apply IH in Hloop; auto. intros k Hk. apply Hfresh. now right.
      * apply IH in Hloop; auto. intros k Hk. apply Hfresh. now right.
Qed.

(** The steps of [normalize_sales] on a dict, when it returns. *)
Lemma normalize_sales_steps (rd : dict) (r : pyval) :
  normalize_sales float_of_str (PDict rd) = Ok r ->
  exists staff first store,
    sales_staff_loop float_of_str (staff_items (PDict rd)) [] = Ok staff
    /\ try_except
         (store_num <- py_float float_of_str (py_get rd K_store) ;;
          Ok (PFloat (if SFltb store_num fzero then fzero else store_num)))
         (py_sum (values staff)) = Ok first
    /\ (if num_is_zero first && truthy (PDict staff)
        then py_sum (values staff) else Ok first) = Ok store
    /\ r = PDict [(K_store, store); (K_staff, PDict staff)].
Proof.
  unfold normalize_sales, staff_items.
  destruct (py_or (py_get rd K_staff) (PDict [])) as [| | | | | |items];
    try discriminate.
  cbn [py_items bind].
  destruct (sales_staff_loop float_of_str items []) as [staff|e] eqn:El;
    [|discriminate].
  cbn [bind].
  destruct (try_except _ _) as [first|e] eqn:Ef; [|discriminate]. cbn [bind].
  destruct (if num_is_zero first && truthy (PDict staff)
            then py_sum (values staff) else Ok first) as [store|e] eqn:Es;
    [|discriminate].
  cbn [bind]. intros [= <-]. exists staff, first, store.
  repeat split; assumption.
Qed.

Lemma eqb_zero_not_ltb (f : float) : SFeqb f fzero = true -> SFltb f fzero = false.
Proof.
  unfold SFltb, SFeqb.
  destruct (SFcompare f fzero) as [[]|]; try discriminate; reflexivity.
Qed.

(** C7: the record [normalize_sales] returns holds the cleaned staff
    mapping of the input, and its [store] is the sum of the cleaned staff
    values when the input's store is absent or invalid, and also when it
    parses to zero (or below) while the cleaned staff mapping is not
    empty; a store that parses to another number is kept; an input with
    empty staff and no store is answered with [store = 0]. *)
Theorem normalize_sales_store (rec : pyval) :
  (forall r, normalize_sales float_of_str rec = Ok r ->
     exists store staff,
       r = PDict [(K_store, store); (K_staff, PDict staff)] /\
       sales_staff_loop float_of_str (staff_items rec) [] = Ok staff /\
       (NoDup (keys (staff_items rec)) -> staff = cleaned_staff (staff_items rec)) /\
       ((py_float float_of_str (store_field rec) = Raise TypeError \/
         py_float float_of_str (store_field rec) = Raise ValueError) ->
        py_sum (values staff) = Ok store) /\
       (forall f, py_float float_of_str (store_field rec) = Ok f ->
                  SFeqb f fzero = true -> staff <> [] ->
                  py_sum (values staff) = Ok store) /\
       (forall f, py_float float_of_str (store_field rec) = Ok f ->
                  SFltb f fzero = true -> staff <> [] ->
                  py_sum (values staff) = Ok store) /\
       (forall f, py_float float_of_str (store_field rec) = Ok f ->
                  SFeqb f fzero = false -> SFltb f fzero = false ->
                  store = PFloat f) /\
       (forall f, py_float float_of_str (store_field rec) = Ok f ->
                  staff = [] ->
                  store = PFloat (if SFltb f fzero then fzero else f)))
  /\ (truthy (staff_field rec) = false -> store_field rec = PNone ->
      normalize_sales float_of_str rec
      = Ok (PDict [(K_store, PInt 0); (K_staff, PDict [])])).
Proof.
  split.
  - intros r Hr.
    assert ((forall rd, rec = PDict rd -> False) \/ exists rd, rec = PDict rd)
      as [Hnd|[rd ->]].
    { destruct rec; try (left; intros rd; discriminate). right. eauto. }
    { assert (r = PDict [(K_store, PInt 0); (K_staff, PDict [])]) as ->.
      { destruct rec; simpl in Hr; try (now injection Hr as <-).
        exfalso. eapply Hnd. reflexivity. }
      assert (store_field rec = PNone /\ staff_items rec = []) as [Hs Hi].
      { destruct rec; auto. exfalso. eapply Hnd. reflexivity. }
      rewrite Hs, Hi. exists (PInt 0), [].
      repeat split; try reflexivity; intros; discriminate. }
    apply normalize_sales_steps in Hr
      as (staff & first & store & Hloop & Hfirst & Hstore & ->).
    exists store, staff. split; [reflexivity|]. split; [exact Hloop|].
    split.
    { intros Hnd. apply (sales_staff_loop_cleaned _ _ Hloop Hnd). intros k _ []. }
    cbn [store_field].
    destruct (py_float float_of_str (py_get rd K_store)) as [f|e].
    + cbn [bind try_except] in Hfirst. injection Hfirst as <-.
      cbn [num_is_zero] in Hstore.
      split; [intros [?|?]; discriminate|].
      split; [|split; [|split]]; intros f' [= <-].
      * intros Hz Hne. rewrite (eqb_zero_not_ltb _ Hz), Hz in Hstore.
        destruct staff; [contradiction | exact Hstore].
      * intros Hlt Hne. rewrite Hlt in Hstore.
        destruct staff; [contradiction | exact Hstore].
      * intros Hz Hlt. rewrite Hlt, Hz in Hstore. now injection Hstore as <-.
      * intros ->. rewrite andb_false_r in Hstore. now injection Hstore as <-.
    + assert (py_sum (values staff) = Ok store) as Hsum.
      { destruct e; cbn [bind try_except] in Hfirst; try discriminate;
          rewrite Hfirst in Hstore |- *; revert Hstore;
          destruct (num_is_zero first && truthy (PDict staff)); auto. }
      split; [intros _; exact Hsum|].
      repeat split; intros; discriminate.
  - destruct rec as [| | | | | |rd]; try reflexivity.
    unfold staff_field, store_field, normalize_sales. intros Hstaff Hstore.
    unfold py_or. rewrite Hstaff, Hstore. reflexivity.
Qed.

(** ** Saving goals *)

(** The sum of the int values of a cleaned [staffTargets]. *)
Definition int_total (d : dict) : Z :=
  fold_right (fun kv acc => match snd kv with PInt z => (z + acc)%Z | _ => acc end) 0%Z d.

Lemma py_sum_ints_from (vs : dict) (acc : Z) :
  Forall (fun kv => exists z, snd kv = PInt z /\ (0 <= z)%Z) vs ->
  fold_left (fun acc v => a <- acc ;; num_add a v) (values vs) (Ok (PInt acc))
  = Ok (PInt (acc + int_total vs)).
Proof.
  unfold values. revert acc. induction vs as [|[k v] vs IH]; intros acc H.
  - simpl. now rewrite Z.add_0_r.
  - inversion H as [|? ? (z & Hz & _) Hrest]; subst. simpl in Hz. subst v.
    change (int_total ((k, PInt z) :: vs)) with (z + int_total vs)%Z.
    cbn [map snd fold_left bind num_add].
    rewrite IH by exact Hrest. f_equal. f_equal. lia.
Qed.

Lemma py_sum_clean_targets (stf : dict) :
  clean_targets stf -> py_sum (values stf) = Ok (PInt (int_total stf)).
Proof. intros [_ H]. unfold py_sum. now rewrite py_sum_ints_from. Qed.

Lemma lookup_update_rev (V : Type) (other d : list (str * V)) (k : str) :
  dict_lookup (dict_update d other) k =
  match dict_lookup (rev other) k with
  | Some v => Some v
  | None => dict_lookup d k
  end.
Proof.
  unfold dict_update. revert d.
  induction other as [|[k0 v0] o IH]; intros d; simpl; [reflexivity|].
  rewrite IH.
  assert (forall (l1 : list (str * V)) k1 v1,
             dict_lookup (l1 ++ [(k1, v1)]) k =
             match dict_lookup l1 k with
             | Some v => Some v
             | None => if str_eqb k1 k then Some v1 else None
             end) as Happ.
  { induction l1 as [|[a b] l1 IHl]; intros k1 v1; simpl; [reflexivity|].
    destruct (str_eqb a k); [reflexivity | apply IHl]. }
  rewrite Happ. destruct (dict_lookup (rev o) k); [reflexivity|].
  destruct (str_eqb k0 k) eqn:E.
  - apply str_eqb_eq in E. subst. apply lookup_set_same.
  - apply lookup_set_other. now apply str_eqb_neq.
Qed.

Lemma lookup_rev_NoDup (V : Type) (d : list (str * V)) (k : str) :
  NoDup (keys d) -> dict_lookup (rev d) k = dict_lookup d k.
Proof.
  induction d as [|[k0 v0] d IH]; intros Hnd; simpl; [reflexivity|].
  inversion Hnd as [|? ? Hnotin Hnd']; subst.
  assert (forall (l1 : list (str * V)) k1 v1,
             dict_lookup (l1 ++ [(k1, v1)]) k =
             match dict_lookup l1 k with
             | Some v => Some v
             | None => if str_eqb k1 k then Some v1 else None
             end) as Happ.
  { induction l1 as [|[a b] l1 IHl]; intros k1 v1; simpl; [reflexivity|].
    destruct (str_eqb a k); [reflexivity | apply IHl]. }
  rewrite Happ, IH by exact Hnd'.
  destruct (str_eqb k0 k) eqn:E.
  - apply str_eqb_eq in E. subst.
    apply lookup_none_iff in Hnotin. now rewrite Hnotin.
  - now destruct (dict_lookup d k).
Qed.

(** The example of the design document: staff targets A = 3 and B = 5
    sent with a store target of 1. *)
Definition example_goal_body : pyval :=
  PDict [(K_storeTarget, PInt 1);
         (K_staffTargets, PDict [(u "A", PInt 3); (u "B", PInt 5)]);
         (K_includeStaff, PNone)].

(** C4: the annual goal [save_goal_for_year] persists has a [storeTarget]
    equal to the sum of its normalised [staffTargets], whatever the
    caller sent; the monthly goal [save_goal_for_month] persists is the
    normalised body, so a store target the caller sent as a non-negative
    int is kept.  With staff targets A = 3, B = 5 and a store target of 1
    the year gets 8 and a month keeps 1. *)
Theorem save_goal_store_target (now_month key : str) (goal_body : pyval)
  (row : setting) :
  (forall goals row',
      save_goal_for_year int_of_str now_month key goal_body row = (Ok goals, row') ->
      row' = Some (goals_to_py goals) /\
      exists saved normalized staff_targets total,
        dict_lookup (annual goals) key = Some (PDict saved) /\
        normalize_goal goal_body = Ok (PDict normalized) /\
        py_get normalized K_staffTargets = PDict staff_targets /\
        py_get saved K_staffTargets = PDict staff_targets /\
        py_sum (values staff_targets) = Ok (PInt total) /\
        py_get saved K_storeTarget = PInt total)
  /\ (forall goals row',
      save_goal_for_month int_of_str now_month key goal_body row = (Ok goals, row') ->
      row' = Some (goals_to_py goals) /\
      exists saved,
        dict_lookup (monthly goals) key = Some (PDict saved) /\
        normalize_goal goal_body = Ok (PDict saved) /\
        (forall body n, goal_body = PDict body -> NoDup (keys body) ->
                        py_get body K_storeTarget = PInt n -> (0 <= n)%Z ->
                        py_get saved K_storeTarget = PInt n))
  /\ (forall loaded row1 normalized,
      load_goals_data int_of_str now_month row = (Ok loaded, row1) ->
      normalize_goal goal_body = Ok normalized ->
      exists goals,
        save_goal_for_year int_of_str now_month key goal_body row
        = (Ok goals, Some (goals_to_py goals)))
  /\ (exists goals saved,
      fst (save_goal_for_year int_of_str (u "2025-04") (u "2025")
             example_goal_body None) = Ok goals /\
      dict_lookup (annual goals) (u "2025") = Some (PDict saved) /\
      py_get saved K_storeTarget = PInt 8)
  /\ (exists goals saved,
      fst (save_goal_for_month int_of_str (u "2025-04") (u "2025-04")
             example_goal_body None) = Ok goals /\
      dict_lookup (monthly goals) (u "2025-04") = Some (PDict saved) /\
      py_get saved K_storeTarget = PInt 1).
Proof.
  split; [|split; [|split; [|split]]].
  - intros goals row'. unfold save_goal_for_year.
    destruct (load_goals_data int_of_str now_month row) as [[loaded|e] row1];
      [|discriminate].
    destruct (normalize_goal goal_body) as [g|e] eqn:Eg; [|discriminate].
    pose proof (normalize_goal_normal _ Eg) as Hn.
    destruct Hn as [st stf inc rest Hst Hstf Hinc Hnd Hres].
    cbn [bind derive_store_target]. unfold three. keys_simpl.
    rewrite (py_sum_clean_targets Hstf). cbn [bind]. keys_simpl.
    unfold save_goals_data, save_app_setting.
    intros [= <- <-]. split; [reflexivity|]. cbn [annual].
    eexists _, _, stf, (int_total stf).
    rewrite lookup_set_same.
    split; [reflexivity|]. split; [reflexivity|].
    unfold three. keys_simpl. repeat split; try reflexivity.
    now apply py_sum_clean_targets.
  - intros goals row'. unfold save_goal_for_month.
    destruct (load_goals_data int_of_str now_month row) as [[loaded|e] row1];
      [|discriminate].
    destruct (normalize_goal goal_body) as [g|e] eqn:Eg; [|discriminate].
    pose proof (normalize_goal_normal _ Eg) as Hn.
    destruct Hn as [st stf inc rest Hst Hstf Hinc Hnd Hres].
    unfold save_goals_data, save_app_setting.
    intros [= <- <-]. split; [reflexivity|]. cbn [monthly].
    eexists. rewrite lookup_set_same. split; [reflexivity|]. split; [reflexivity|].
    intros body n -> Hbody Hget Hn.
    rewrite normalize_goal_finish in Eg. unfold finish in Eg.
    assert (py_get (dict_update DEFAULT_GOAL body) K_storeTarget = PInt n) as Hupd.
    { unfold py_get in *. rewrite lookup_update_rev, lookup_rev_NoDup by exact Hbody.
      destruct (dict_lookup body K_storeTarget); [exact Hget | discriminate]. }
    rewrite Hupd in Eg.
    assert (py_int int_of_str (py_or (PInt n) (PInt 0)) = Ok n) as Hint.
    { unfold py_or. simpl. destruct (Z.eqb_spec n 0) as [->|]; reflexivity. }
    rewrite Hint in Eg. cbn [bind try_except] in Eg. rewrite Z.max_r in Eg by exact Hn.
    destruct (py_items _) as [items|e]; [|discriminate]. cbn [bind] in Eg.
    destruct (staff_targets_loop items []) as [stf'|e]; [|discriminate].
    cbn [bind] in Eg.
    destruct (py_iter _) as [names|e]; [|discriminate]. cbn [bind] in Eg.
    injection Eg as Eg.
    rewrite <- Eg. unfold py_get.
    rewrite lookup_set_other by discriminate.
    rewrite lookup_set_other by discriminate.
    now rewrite lookup_set_same.
  - intros loaded row1 g Hload Hg. unfold save_goal_for_year. rewrite Hload, Hg.
    destruct (normalize_goal_normal _ Hg) as [st stf inc rest Hst Hstf Hinc Hnd Hres].
    cbn [bind derive_store_target]. unfold three. keys_simpl.
    rewrite (py_sum_clean_targets Hstf). cbn [bind].
    unfold save_goals_data, save_app_setting. eexists. reflexivity.
  - eexists _, _. vm_compute. repeat split.
  - eexists _, _. vm_compute. repeat split.
Qed.

End WithParsers.

(** ** The theorems at concrete inputs *)

(** A record with staff sales only, one of them sent as text. *)
Definition staff_only_sales : pyval :=
  PDict [(K_staff, PDict [(u "a", PStr (u "3")); (u "b", PInt 2)])].

(** The same staff sales with a store total of zero. *)
Definition zero_store_sales : pyval :=
  PDict [(K_store, PInt 0);
         (K_staff, PDict [(u "a", PStr (u "3")); (u "b", PInt 2)])].

(** The float 2, 3 and 5 of the example. *)
Definition float_2 : float := S754_finite false 4503599627370496 (-51).
Definition float_3 : float := S754_finite false 6755399441055744 (-51).
Definition float_5 : float := S754_finite false 5629499534213120 (-50).

Lemma normalize_sales_store_witness :
  normalize_sales plain_float_of_str staff_only_sales
  = Ok (PDict [(K_store, PFloat float_5);
               (K_staff, PDict [(u "a", PFloat float_3); (u "b", PFloat float_2)])])
  /\ normalize_sales plain_float_of_str zero_store_sales
     = Ok (PDict [(K_store, PFloat float_5);
                  (K_staff, PDict [(u "a", PFloat float_3); (u "b", PFloat float_2)])])
  /\ normalize_sales plain_float_of_str (PDict [])
     = Ok (PDict [(K_store, PInt 0); (K_staff, PDict [])]).
Proof.
  assert (NoDup (keys [(u "a", PStr (u "3")); (u "b", PInt 2)])) as Hkeys.
  { repeat constructor; simpl; intuition discriminate. }
  split; [|split].
  - destruct (normalize_sales plain_float_of_str staff_only_sales) as [r|e] eqn:Er;
      [|vm_compute in Er; discriminate].
    destruct (proj1 (normalize_sales_store plain_float_of_str staff_only_sales) r Er)
      as (store & staff & -> & _ & Hstaff & Habsent & _).
    specialize (Hstaff Hkeys). vm_compute in Hstaff. subst staff.
    specialize (Habsent (or_introl eq_refl)).
    vm_compute in Habsent. now injection Habsent as <-.
  - destruct (normalize_sales plain_float_of_str zero_store_sales) as [r|e] eqn:Er;
      [|vm_compute in Er; discriminate].
    destruct (proj1 (normalize_sales_store plain_float_of_str zero_store_sales) r Er)
      as (store & staff & -> & _ & Hstaff & _ & Hzero & _).
    specialize (Hstaff Hkeys). vm_compute in Hstaff. subst staff.
    specialize (Hzero fzero eq_refl eq_refl).
    assert (py_sum (values [(u "a", PFloat float_3); (u "b", PFloat float_2)])
            = Ok store) as Hsum by (apply Hzero; discriminate).
    vm_compute in Hsum. now injection Hsum as <-.
  - apply (proj2 (normalize_sales_store plain_float_of_str (PDict []))); reflexivity.
Defined.

Lemma save_goal_store_target_witness :
  (exists goals saved,
      save_goal_for_year plain_int_of_str (u "2025-04") (u "2025") example_goal_body None
      = (Ok goals, Some (goals_to_py goals))
      /\ dict_lookup (annual goals) (u "2025") = Some (PDict saved)
      /\ py_get saved K_storeTarget = PInt 8)
  /\ (exists goals saved,
      save_goal_for_month plain_int_of_str (u "2025-04") (u "2025-04")
        example_goal_body None
      = (Ok goals, Some (goals_to_py goals))
      /\ dict_lookup (monthly goals) (u "2025-04") = Some (PDict saved)
      /\ py_get saved K_storeTarget = PInt 1).
Proof.
  pose proof (save_goal_store_target plain_int_of_str (u "2025-04") (u "2025")
                example_goal_body None) as (Hyear & _).
  pose proof (save_goal_store_target plain_int_of_str (u "2025-04") (u "2025-04")
                example_goal_body None) as (_ & Hmonth & _).
  split.
  - destruct (Hyear _ _ eq_refl)
      as (Hrow & saved & normalized & staff_targets & total
          & Hsaved & Hnorm & Hget & _ & Hsum & Hstore).
    eexists _, saved. split; [reflexivity|]. split; [exact Hsaved|].
    rewrite Hstore. f_equal.
    vm_compute in Hnorm. injection Hnorm as <-.
    vm_compute in Hget. injection Hget as <-.
    vm_compute in Hsum. now injection Hsum as <-.
  - destruct (Hmonth _ _ eq_refl) as (Hrow & saved & Hsaved & Hnorm & Hkept).
    eexists _, saved. split; [reflexivity|]. split; [exact Hsaved|].
    apply (Hkept _ 1%Z eq_refl); [|reflexivity|lia].
    repeat constructor; simpl; intuition discriminate.
Defined.

End GoalsFacts.

(* ================================================================== *)
(** * Properties of the lease lock manager                          *)
(* ================================================================== *)

Module LocksFacts.
Import Py PyFacts Locks.
#[local] Open Scope Z_scope.

Definition key_of (l : lock) : str * str := (resource_type l, resource_id l).

Lemma same_key_iff rt rid l : same_key rt rid l = true <-> key_of l = (rt, rid).
Proof.
  unfold same_key, key_of. rewrite andb_true_iff, !str_eqb_eq.
  split; [intros [-> ->]; reflexivity | intros [= -> ->]; auto].
Qed.

Lemma unique_key_eq (t : table) (l l' : lock) :
  unique_keys t -> In l t -> In l' t -> key_of l = key_of l' -> l = l'.
Proof.
  unfold unique_keys. fold key_of.
  induction t as [|x t IH]; simpl; intros Hnd Hl Hl' Hk; [contradiction|].
  inversion Hnd as [|? ? Hnotin Hnd']; subst.
  destruct Hl as [->|Hl], Hl' as [->|Hl']; auto.
  - exfalso. apply Hnotin. rewrite Hk. now apply in_map.
  - exfalso. apply Hnotin. rewrite <- Hk. now apply in_map.
Qed.

Lemma cleanup_keeps_live db_now t l :
  live db_now l -> In l t -> In l (cleanup_expired_locks db_now t).
Proof.
  unfold live, cleanup_expired_locks. intros Hlive Hin.
  apply filter_In. split; [exact Hin|].
  apply negb_true_iff, Z.ltb_ge. lia.
Qed.

Lemma cleanup_subset db_now t l : In l (cleanup_expired_locks db_now t) -> In l t.
Proof. unfold cleanup_expired_locks. intros H. now apply filter_In in H. Qed.

Lemma insert_rejected_iff l t :
  insert_lock l t = None <-> select_lock (resource_type l) (resource_id l) t <> None.
Proof.
  unfold insert_lock. destruct (select_lock _ _ t); split; congruence.
Qed.

(** C1 (as the code has it): when a live lease for the key is stored,
    [check_lock_available] answers [False] with that lease's holder and
    expiry and only purges expired rows, so every live lease stays as it
    was; when no lease for the key is found but the INSERT is rejected by
    the uniqueness constraint, it answers [False] with the holder
    "unknown" and an empty expiry, and leaves the store as the other
    sessions made it. *)
Theorem acquire_conflict (db_now now : timestamp) (others : table -> table)
  (rt rid user_name : str) (t : table) :
  (forall l, unique_keys t -> In l t -> same_key rt rid l = true -> live db_now l ->
     check_lock_available db_now now others rt rid user_name t
     = ((false, {| user := locked_by l;
                   info_locked_at := Some (Iso (locked_at l));
                   info_expires_at := Iso (expires_at l) |}),
        cleanup_expired_locks db_now t)
     /\ (forall l', live db_now l' ->
           (In l' (cleanup_expired_locks db_now t) <-> In l' t)))
  /\ (select_lock rt rid (cleanup_expired_locks db_now t) = None ->
      select_lock rt rid (others (cleanup_expired_locks db_now t)) <> None ->
      check_lock_available db_now now others rt rid user_name t
      = ((false, {| user := u "unknown";
                    info_locked_at := None;
                    info_expires_at := Blank |}),
         others (cleanup_expired_locks db_now t))).
Proof.
  split.
  - intros l Huniq Hin Hkey Hlive. split.
    + unfold check_lock_available.
      destruct (select_lock rt rid (cleanup_expired_locks db_now t)) as [l'|] eqn:Esel.
      * unfold select_lock in Esel. apply find_some in Esel as [Hin' Hkey'].
        assert (l' = l) as ->; [|reflexivity].
        apply (unique_key_eq (t := t)); auto.
        -- now apply cleanup_subset in Hin'.
        -- apply same_key_iff in Hkey, Hkey'. congruence.
      * exfalso. unfold select_lock in Esel.
        pose proof (find_none _ _ Esel l (cleanup_keeps_live t Hlive Hin)) as Hno.
        congruence.
    + intros l' Hl'. split; [apply cleanup_subset | now apply cleanup_keeps_live].
  - intros Hnone Hrej. unfold check_lock_available. rewrite Hnone.
    unfold insert_lock. cbn [resource_type resource_id].
    destruct (select_lock rt rid (others _)); [reflexivity | contradiction].
Qed.

(** The lease a rival session commits in the race of the counterexample. *)
Definition rival_lease : lock :=
  {| resource_type := u "contract"; resource_id := u "R7-1-1";
     locked_by := u "alice"; locked_at := 1000; expires_at := 120001000 |}.

(** C1, as stated, fails: with an empty store and a rival that commits its
    lease between the SELECT and the INSERT, the INSERT is rejected and
    the answer names "unknown" with an empty expiry, not the winner
    "alice" and the winner's expiry. *)
Lemma acquire_race_hides_winner :
  let '(answer, t') :=
    check_lock_available 1000 1000 (fun t => t ++ [rival_lease])
      (u "contract") (u "R7-1-1") (u "bob") [] in
  insert_lock {| resource_type := u "contract"; resource_id := u "R7-1-1";
                 locked_by := u "bob"; locked_at := 1000;
                 expires_at := 120001000 |} [rival_lease] = None
  /\ t' = [rival_lease]
  /\ fst answer = false
  /\ user (snd answer) <> locked_by rival_lease
  /\ info_expires_at (snd answer) <> Iso (expires_at rival_lease).
Proof. vm_compute. repeat split; discriminate. Qed.

(** A store with one live lease on the contract R7-1-1, and a second
    session asking for it. *)
Lemma acquire_conflict_witness :
  check_lock_available 2000 2000 (fun t => t) (u "contract") (u "R7-1-1") (u "bob")
    [rival_lease]
  = ((false, {| user := u "alice";
                info_locked_at := Some (Iso 1000);
                info_expires_at := Iso 120001000 |}), [rival_lease])
  /\ check_lock_available 1000 1000 (fun t => t ++ [rival_lease])
       (u "contract") (u "R7-1-1") (u "bob") []
     = ((false, {| user := u "unknown"; info_locked_at := None;
                   info_expires_at := Blank |}), [rival_lease]).
Proof.
  split.
  - refine (proj1 ((proj1 (acquire_conflict 2000 2000 (fun t => t)
                     (u "contract") (u "R7-1-1") (u "bob") [rival_lease]))
                     rival_lease _ _ _ _)).
    + unfold unique_keys. simpl. constructor; [intros [] | constructor].
    + now left.
    + reflexivity.
    + unfold live. simpl. lia.
  - refine ((proj2 (acquire_conflict 1000 1000 (fun t => t ++ [rival_lease])
                     (u "contract") (u "R7-1-1") (u "bob") [])) _ _).
    + reflexivity.
    + discriminate.
Defined.

End LocksFacts.

(* ================================================================== *)
(** * Properties of the monthly progress                            *)
(* ================================================================== *)

Module ProgressFacts.
Import Py PyFacts Progress.
#[local] Open Scope Z_scope.

(** ** The month of a date *)

Section Dates.
#[local] Open Scope N_scope.

(** The text [date.isoformat()] gives for year [y], month [m], day [d]
    (what [format_date] puts in a contract), and the month key of it. *)
Definition iso_date (y m d : N) : str :=
  digits_w 4 y ++ u "-" ++ digits_w 2 m ++ u "-" ++ digits_w 2 d.

Definition month_text (y m : N) : str := digits_w 4 y ++ u "-" ++ digits_w 2 m.

(** The dates of the calendar of [datetime]. *)
Definition is_date (y m d : N) : Prop :=
  1 <= y <= 9999 /\ 1 <= m <= 12 /\ 1 <= d <= days_in_month y m.

(** A text made of a four-digit year, a month and a day, as decimal
    numbers with a dash between them; the day may be a blank and a
    digit. *)
Definition reads_as (s : str) (y m d : N) : Prop :=
  exists ty tm td,
    s = ty ++ u "-" ++ tm ++ u "-" ++ td
    /\ List.length ty = 4%nat
    /\ digits_value ty 0 = Some y
    /\ digits_value tm 0 = Some m
    /\ (digits_value td 0 = Some d \/ td = [32; digit_char d]).

(** The part of the pattern after the year and its dash. *)
Definition month_day (rest : str) : option (N * N * str) :=
  first_match month_alternatives
    (fun m rest1 =>
       match rest1 with
       | 45 :: rest2 =>
           first_match day_alternatives (fun d rest3 => Some (m, d, rest3)) rest2
       | _ => None
       end)
    rest.

Lemma strptime_ymd_eq y1 y2 y3 y4 rest :
  strptime_ymd (y1 :: y2 :: y3 :: y4 :: 45 :: rest) =
  match digits_value [y1; y2; y3; y4] 0 with
  | Some y =>
      match month_day rest with
      | Some (m, d, []) =>
          if (1 <=? y) && (d <=? days_in_month y m) then Some (y, m, d) else None
      | _ => None
      end
  | None => None
  end.
Proof. reflexivity. Qed.

Lemma strptime_ymd_shape s r :
  strptime_ymd s = Some r ->
  exists y1 y2 y3 y4 rest, s = y1 :: y2 :: y3 :: y4 :: 45 :: rest.
Proof.
  destruct s as [|y1 [|y2 [|y3 [|y4 [|dash rest]]]]]; try discriminate.
  destruct (N.eqb_spec dash 45) as [->|Hd].
  - intros _. now exists y1, y2, y3, y4, rest.
  - unfold strptime_ymd.
    destruct dash as [|p]; [discriminate|].
    do 6 (destruct p as [p|p|]; try discriminate). congruence.
Qed.

Lemma first_match_some (A : Type) alts (k : N -> str -> option A) s r :
  first_match alts k s = Some r ->
  exists a v rest, In a alts /\ a s = Some (v, rest) /\ k v rest = Some r.
Proof.
  unfold first_match. induction alts as [|a alts IH]; simpl; [discriminate|].
  destruct (a s) as [[v rest]|] eqn:Ea.
  - destruct (k v rest) as [r'|] eqn:Ek.
    + intros [= <-]. exists a, v, rest. auto.
    + intros H. destruct (IH H) as (a' & v' & rest' & Hin & H1 & H2).
      exists a', v', rest'. auto.
  - intros H. destruct (IH H) as (a' & v' & rest' & Hin & H1 & H2).
    exists a', v', rest'. auto.
Qed.

Lemma in_range_spec lo hi c : in_range lo hi c = true <-> lo <= c <= hi.
Proof.
  unfold in_range. rewrite andb_true_iff, !N.leb_le. tauto.
Qed.

(** What the alternatives read. *)
Lemma lit_then_range_reads c0 lo hi tens s v rest :
  lit_then_range c0 lo hi tens s = Some (v, rest) ->
  exists b, s = c0 :: b :: rest /\ lo <= b <= hi /\ v = tens + (b - 48).
Proof.
  unfold lit_then_range. destruct s as [|a [|b rest']]; try discriminate.
  destruct (N.eqb_spec a c0) as [->|]; [|discriminate]. simpl.
  destruct (in_range lo hi b) eqn:E; [|discriminate].
  intros [= <- <-]. apply in_range_spec in E. now exists b.
Qed.

Lemma one_in_range_reads lo hi s v rest :
  one_in_range lo hi s = Some (v, rest) ->
  exists a, s = a :: rest /\ lo <= a <= hi /\ v = a - 48.
Proof.
  unfold one_in_range. destruct s as [|a rest']; try discriminate.
  destruct (in_range lo hi a) eqn:E; [|discriminate].
  intros [= <- <-]. apply in_range_spec in E. now exists a.
Qed.

Lemma one_or_two_then_digit_reads s v rest :
  one_or_two_then_digit s = Some (v, rest) ->
  exists a b d, s = a :: b :: rest /\ 49 <= a <= 50 /\ digit_value b = Some d
                /\ v = 10 * (a - 48) + d.
Proof.
  unfold one_or_two_then_digit. destruct s as [|a [|b rest']]; try discriminate.
  destruct (digit_value b) as [d|] eqn:Eb; [|discriminate].
  destruct (in_range 49 50 a) eqn:E; [|discriminate].
  intros [= <- <-]. apply in_range_spec in E. now exists a, b, d.
Qed.

Lemma two_digits a b va vb :
  digit_value a = Some va -> digit_value b = Some vb ->
  digits_value [a; b] 0 = Some (10 * va + vb).
Proof. intros Ha Hb. cbn [digits_value]. rewrite Ha, Hb. f_equal; lia. Qed.

Lemma one_digit a va : digit_value a = Some va -> digits_value [a] 0 = Some va.
Proof. intros Ha. cbn [digits_value]. rewrite Ha. f_equal; lia. Qed.

Lemma month_alternative_reads a s v rest :
  In a month_alternatives -> a s = Some (v, rest) ->
  exists t, s = t ++ rest /\ digits_value t 0 = Some v /\ 1 <= v <= 12.
Proof.
  intros [<-|[<-|[<-|[]]]] H.
  - apply lit_then_range_reads in H. destruct H as (b & -> & Hb & ->).
    exists [49; b]. repeat split; try lia.
    rewrite (@two_digits 49 b 1 (b - 48)); [f_equal; lia | reflexivity |].
    apply digit_value_ascii. lia.
  - apply lit_then_range_reads in H. destruct H as (b & -> & Hb & ->).
    exists [48; b]. repeat split; try lia.
    rewrite (@two_digits 48 b 0 (b - 48)); [f_equal; lia | reflexivity |].
    apply digit_value_ascii. lia.
  - apply one_in_range_reads in H. destruct H as (b & -> & Hb & ->).
    exists [b]. repeat split; try lia.
    apply one_digit, digit_value_ascii. lia.
Qed.

Lemma day_alternative_reads a s v rest :
  In a day_alternatives -> a s = Some (v, rest) ->
  exists t, s = t ++ rest
            /\ (digits_value t 0 = Some v \/ t = [32; digit_char v])
            /\ 1 <= v <= 31.
Proof.
  intros [<-|[<-|[<-|[<-|[<-|[]]]]]] H.
  - apply lit_then_range_reads in H. destruct H as (b & -> & Hb & ->).
    exists [51; b]. repeat split; try lia. left.
    rewrite (@two_digits 51 b 3 (b - 48)); [f_equal; lia | reflexivity |].
    apply digit_value_ascii. lia.
  - apply one_or_two_then_digit_reads in H.
    destruct H as (a & b & d & -> & Ha & Hb & ->).
    pose proof (@digit_value_bound _ _ Hb) as Hdb.
    exists [a; b]. repeat split; try lia. left.
    apply two_digits; [apply digit_value_ascii; lia | exact Hb].
  - apply lit_then_range_reads in H. destruct H as (b & -> & Hb & ->).
    exists [48; b]. repeat split; try lia. left.
    rewrite (@two_digits 48 b 0 (b - 48)); [f_equal; lia | reflexivity |].
    apply digit_value_ascii. lia.
  - apply one_in_range_reads in H. destruct H as (b & -> & Hb & ->).
    exists [b]. repeat split; try lia. left.
    apply one_digit, digit_value_ascii. lia.
  - apply lit_then_range_reads in H. destruct H as (b & -> & Hb & ->).
    exists [32; b]. repeat split; try lia. right.
    unfold digit_char. do 2 f_equal. lia.
Qed.

Lemma month_day_reads rest m d left_over :
  month_day rest = Some (m, d, left_over) ->
  exists tm td,
    rest = tm ++ 45 :: td ++ left_over
    /\ digits_value tm 0 = Some m /\ 1 <= m <= 12
    /\ (digits_value td 0 = Some d \/ td = [32; digit_char d]) /\ 1 <= d <= 31.
Proof.
  unfold month_day. intros H.
  apply first_match_some in H. destruct H as (a & v & rest1 & Hin & Ha & Hk).
  destruct (@month_alternative_reads _ _ _ _ Hin Ha) as (tm & -> & Hm & Hmr).
  destruct rest1 as [|dash rest2]; [discriminate|].
  destruct (N.eqb_spec dash 45) as [->|Hd].
  - apply first_match_some in Hk.
    destruct Hk as (a' & v' & rest3 & Hin' & Ha' & Hk).
    injection Hk as <- <- <-.
    destruct (@day_alternative_reads _ _ _ _ Hin' Ha') as (td & -> & Hd & Hdr).
    exists tm, td. auto.
  - destruct dash as [|p]; [discriminate|].
    do 6 (destruct p as [p|p|]; try discriminate). congruence.
Qed.

Lemma digits_value_cons c s acc :
  digits_value (c :: s) acc =
  match digit_value c with
  | Some d => digits_value s (10 * acc + d)
  | None => None
  end.
Proof. reflexivity. Qed.

Lemma four_digits_bound y1 y2 y3 y4 y :
  digits_value [y1; y2; y3; y4] 0 = Some y -> y <= 9999.
Proof.
  rewrite digits_value_cons.
  destruct (digit_value y1) as [a|] eqn:E1; [|discriminate].
  rewrite digits_value_cons.
  destruct (digit_value y2) as [b|] eqn:E2; [|discriminate].
  rewrite digits_value_cons.
  destruct (digit_value y3) as [c|] eqn:E3; [|discriminate].
  rewrite digits_value_cons.
  destruct (digit_value y4) as [d|] eqn:E4; [|discriminate].
  apply digit_value_bound in E1, E2, E3, E4.
  intros H. assert (10 * (10 * (10 * (10 * 0 + a) + b) + c) + d = y) as <-.
  { now injection H. }
  lia.
Qed.

(** Whatever [strptime] accepts is a date of the calendar, written as a
    year, a month and a day. *)
Lemma strptime_ymd_reads s y m d :
  strptime_ymd s = Some (y, m, d) -> reads_as s y m d /\ is_date y m d.
Proof.
  intros H. destruct (@strptime_ymd_shape _ _ H) as (y1 & y2 & y3 & y4 & rest & ->).
  rewrite strptime_ymd_eq in H.
  destruct (digits_value [y1; y2; y3; y4] 0) as [y'|] eqn:Ey; [|discriminate].
  destruct (month_day rest) as [[[m' d'] left_over]|] eqn:Emd; [|discriminate].
  destruct left_over; [|discriminate].
  destruct ((1 <=? y') && (d' <=? days_in_month y' m')) eqn:Ev; [|discriminate].
  injection H as -> -> ->.
  apply andb_prop in Ev. destruct Ev as [Ey1 Ed]. apply N.leb_le in Ey1, Ed.
  apply month_day_reads in Emd.
  destruct Emd as (tm & td & -> & Hm & Hmr & Hd & Hdr).
  split.
  - exists [y1; y2; y3; y4], tm, td. rewrite app_nil_r. repeat split; auto.
  - pose proof (@four_digits_bound _ _ _ _ _ Ey). unfold is_date. lia.
Qed.

(** The month and the day of an ISO text are read back, all 12 x 31 of
    them. *)
Definition reads_back (m d : N) : bool :=
  match month_day (digits_w 2 m ++ 45 :: digits_w 2 d) with
  | Some (m', d', []) => (m' =? m) && (d' =? d)
  | _ => false
  end.

Definition up_to (n : nat) : list N := map N.of_nat (seq 1 n).

Lemma in_up_to n k : 1 <= k <= N.of_nat n -> In k (up_to n).
Proof.
  intros H. unfold up_to. rewrite <- (N2Nat.id k).
  apply in_map, in_seq. lia.
Qed.

Lemma month_day_table :
  forallb (fun m => forallb (reads_back m) (up_to 31)) (up_to 12) = true.
Proof. vm_compute. reflexivity. Qed.

Lemma month_day_iso m d :
  1 <= m <= 12 -> 1 <= d <= 31 ->
  month_day (digits_w 2 m ++ 45 :: digits_w 2 d) = Some (m, d, []).
Proof.
  intros Hm Hd. pose proof month_day_table as T.
  rewrite forallb_forall in T. specialize (T m (@in_up_to 12 m Hm)).
  rewrite forallb_forall in T. specialize (T d (@in_up_to 31 d Hd)).
  unfold reads_back in T.
  destruct (month_day _) as [[[m' d'] [|]]|]; try discriminate.
  apply andb_prop in T. destruct T as [T1 T2].
  apply N.eqb_eq in T1, T2. now subst.
Qed.

Lemma iso_date_shape y m d :
  exists y1 y2 y3 y4,
    digits_w 4 y = [y1; y2; y3; y4]
    /\ iso_date y m d
       = y1 :: y2 :: y3 :: y4 :: 45 :: (digits_w 2 m ++ 45 :: digits_w 2 d).
Proof. do 4 eexists. split; reflexivity. Qed.

Lemma strptime_ymd_iso y m d :
  y <= 9999 -> 1 <= m <= 12 -> 1 <= d <= 31 ->
  strptime_ymd (iso_date y m d) =
  if (1 <=? y) && (d <=? days_in_month y m) then Some (y, m, d) else None.
Proof.
  intros Hy Hm Hd.
  destruct (iso_date_shape y m d) as (y1 & y2 & y3 & y4 & Hdig & ->).
  rewrite strptime_ymd_eq, <- Hdig, digits_value_digits_w, month_day_iso by assumption.
  change (10 ^ N.of_nat 4) with 10000.
  rewrite N.mod_small by lia. reflexivity.
Qed.

Lemma days_in_month_bound y m : 28 <= days_in_month y m <= 31.
Proof.
  unfold days_in_month.
  destruct (m =? 2); [destruct (is_leap y); lia|].
  destruct ((m =? 4) || (m =? 6) || (m =? 9) || (m =? 11)); lia.
Qed.

Lemma iso_date_not_empty y m d : iso_date y m d <> [].
Proof.
  destruct (iso_date_shape y m d) as (y1 & y2 & y3 & y4 & _ & ->). discriminate.
Qed.

Lemma truthy_str s : s <> [] -> truthy (PStr s) = true.
Proof. destruct s; [congruence | reflexivity]. Qed.

Lemma format_4d y : 1 <= y <= 9999 -> format_0d 4 y = digits_w 4 y.
Proof.
  intros H. apply format_0d_small; [lia|].
  change (10 ^ N.of_nat 4) with 10000. lia.
Qed.

Lemma format_2d m : 1 <= m <= 12 -> format_0d 2 m = digits_w 2 m.
Proof.
  intros H. apply format_0d_small; [lia|].
  change (10 ^ N.of_nat 2) with 100. lia.
Qed.

(** The month key of an ISO date of the calendar. *)
Lemma month_key_from_date_iso y m d :
  is_date y m d -> month_key_from_date (PStr (iso_date y m d)) = Some (month_text y m).
Proof.
  intros (Hy & Hm & Hd). pose proof (days_in_month_bound y m).
  unfold month_key_from_date.
  rewrite truthy_str by apply iso_date_not_empty. cbn [negb].
  rewrite strptime_ymd_iso by lia.
  replace (1 <=? y) with true by (symmetry; apply N.leb_le; lia).
  replace (d <=? days_in_month y m) with true by (symmetry; apply N.leb_le; lia).
  cbn [andb]. unfold month_text.
  now rewrite (format_4d Hy), (format_2d Hm).
Qed.

(** An ISO text that names no date of the calendar has no month key. *)
Lemma month_key_from_date_no_date y m d :
  y <= 9999 -> 1 <= m <= 12 -> 1 <= d <= 31 -> ~ is_date y m d ->
  month_key_from_date (PStr (iso_date y m d)) = None.
Proof.
  intros Hy Hm Hd Hno. unfold month_key_from_date.
  rewrite truthy_str by apply iso_date_not_empty. cbn [negb].
  rewrite strptime_ymd_iso by lia.
  destruct (N.leb_spec 1 y) as [H1|H1]; [|reflexivity].
  destruct (N.leb_spec d (days_in_month y m)) as [H2|H2]; [|reflexivity].
  exfalso. apply Hno. unfold is_date. lia.
Qed.

(** A month key comes from a non-empty str that reads as a date of the
    calendar, and is the year and month of that date. *)
Lemma month_key_from_date_some v k :
  month_key_from_date v = Some k ->
  exists s y m d,
    v = PStr s /\ s <> [] /\ reads_as s y m d /\ is_date y m d /\ k = month_text y m.
Proof.
  unfold month_key_from_date.
  destruct (truthy v) eqn:Et; [|discriminate]. cbn [negb].
  destruct v as [| | | |s| |]; try discriminate.
  destruct (strptime_ymd s) as [[[y m] d]|] eqn:Es; [|discriminate].
  intros [= <-]. exists s, y, m, d.
  destruct (@strptime_ymd_reads _ _ _ _ Es) as [Hr Hd].
  split; [reflexivity|]. split; [intros ->; discriminate|].
  split; [exact Hr|]. split; [exact Hd|].
  destruct Hd as (Hy & Hm & _). unfold month_text.
  now rewrite (format_4d Hy), (format_2d Hm).
Qed.

Lemma month_key_from_date_none v :
  (forall s, v <> PStr s) \/ v = PStr [] -> month_key_from_date v = None.
Proof.
  intros [H| ->]; [|reflexivity].
  unfold month_key_from_date. destruct (truthy v); [|reflexivity]. cbn [negb].
  destruct v; try reflexivity. now destruct (H s).
Qed.

End Dates.

Lemma lookup_modify (V : Type) (d : list (str * V)) (k k' : str) (dflt : V) (f : V -> V) :
  dict_lookup (dict_modify d k dflt f) k' =
  if str_eqb k k' then Some (f (dict_get_default d k dflt)) else dict_lookup d k'.
Proof.
  unfold dict_modify. destruct (str_eqb k k') eqn:E.
  - apply str_eqb_eq in E. subst. apply lookup_set_same.
  - apply lookup_set_other. now apply str_eqb_neq.
Qed.

(** The number of contracts of [l] whose event [ev] falls in month [m]. *)
Definition happens (ev : contract -> option str) (m : str) (c : contract) : bool :=
  match ev c with
  | Some m' => str_eqb m' m
  | None => false
  end.

Definition events (ev : contract -> option str) (m : str) (l : list contract) : Z :=
  Z.of_nat (List.length (filter (happens ev m) l)).

(** The same, for the contracts of one member of staff. *)
Definition staff_events (ev : contract -> option str) (m name : str)
  (l : list contract) : Z :=
  Z.of_nat (List.length
              (filter (fun c => happens ev m c && str_eqb (staff_of c) name) l)).

Lemma events_snoc ev m l c :
  events ev m (l ++ [c]) = events ev m l + (if happens ev m c then 1 else 0).
Proof.
  unfold events. rewrite filter_app, length_app. simpl.
  destruct (happens ev m c); simpl; lia.
Qed.

Lemma staff_events_snoc ev m name l c :
  staff_events ev m name (l ++ [c]) =
  staff_events ev m name l
  + (if happens ev m c && str_eqb (staff_of c) name then 1 else 0).
Proof.
  unfold staff_events. rewrite filter_app, length_app. simpl.
  destruct (happens ev m c && str_eqb (staff_of c) name); simpl; lia.
Qed.

Lemma events_snoc_none ev m l c :
  ev c = None -> events ev m (l ++ [c]) = events ev m l.
Proof. intros E. rewrite events_snoc. unfold happens. rewrite E. lia. Qed.

Lemma staff_events_snoc_none ev m name l c :
  ev c = None -> staff_events ev m name (l ++ [c]) = staff_events ev m name l.
Proof. intros E. rewrite staff_events_snoc. unfold happens. rewrite E. simpl. lia. Qed.

(** What one entry must hold for given counts. *)
Definition staff_ok (s c : Z) (o : option staff_progress) : Prop :=
  match o with
  | None => s = 0 /\ c = 0
  | Some e =>
      staff_signed e = s /\ staff_canceled e = c /\ staff_net e = s - c /\ 0 < s + c
  end.

Definition month_ok (s c : Z) (ss cs : str -> Z) (o : option month_progress) : Prop :=
  match o with
  | None => s = 0 /\ c = 0 /\ forall name, ss name = 0 /\ cs name = 0
  | Some e =>
      signed e = s /\ canceled e = c /\ net e = s - c /\ 0 < s + c /\
      forall name, staff_ok (ss name) (cs name) (dict_lookup (staff e) name)
  end.

Definition tallies (s c : str -> Z) (ss cs : str -> str -> Z)
  (monthly : monthly_progress) : Prop :=
  forall m, month_ok (s m) (c m) (ss m) (cs m) (dict_lookup monthly m).

Definition one_if (b : bool) : Z := if b then 1 else 0.

Lemma tallies_signed s c ss cs monthly m0 n0 s' ss' :
  tallies s c ss cs monthly ->
  (forall m, s' m = s m + one_if (str_eqb m0 m)) ->
  (forall m n, ss' m n = ss m n + one_if (str_eqb m0 m && str_eqb n0 n)) ->
  tallies s' c ss' cs (dict_modify monthly m0 no_progress (record_signed n0)).
Proof.
  intros H Hs Hss m. specialize (H m). rewrite lookup_modify.
  destruct (str_eqb m0 m) eqn:Em.
  - apply str_eqb_eq in Em. subst m0.
    unfold dict_get_default.
    assert (forall n, ss' m n = ss m n + one_if (str_eqb n0 n)) as Hss'.
    { intros n. rewrite Hss, str_eqb_refl. reflexivity. }
    assert (s' m = s m + 1) as Hs'.
    { rewrite Hs, str_eqb_refl. reflexivity. }
    destruct (dict_lookup monthly m) as [e|]; simpl in H |- *.
    + destruct H as (H1 & H2 & H3 & H4 & H5).
      repeat split; try lia.
      intros name. specialize (H5 name). rewrite lookup_modify, Hss'.
      destruct (str_eqb n0 name) eqn:En; simpl.
      * apply str_eqb_eq in En. subst n0. unfold dict_get_default.
        destruct (dict_lookup (staff e) name); simpl in H5 |- *; lia.
      * now rewrite Z.add_0_r.
    + destruct H as (H1 & H2 & H3).
      repeat split; try lia.
      intros name. specialize (H3 name). rewrite Hss'.
      destruct (str_eqb n0 name) eqn:En; simpl; try rewrite En; simpl; lia.
  - rewrite Hs, Em. unfold one_if. rewrite Z.add_0_r.
    assert (forall n, ss' m n = ss m n) as Hss'.
    { intros n. rewrite Hss, Em. simpl. lia. }
    destruct (dict_lookup monthly m) as [e|]; simpl in H |- *.
    + destruct H as (H1 & H2 & H3 & H4 & H5). repeat split; auto.
      intros name. rewrite Hss'. apply H5.
    + destruct H as (H1 & H2 & H3). repeat split; auto;
        try rewrite Hss'; apply H3.
Qed.

Lemma tallies_canceled s c ss cs monthly m0 n0 c' cs' :
  tallies s c ss cs monthly ->
  (forall m, c' m = c m + one_if (str_eqb m0 m)) ->
  (forall m n, cs' m n = cs m n + one_if (str_eqb m0 m && str_eqb n0 n)) ->
  tallies s c' ss cs' (dict_modify monthly m0 no_progress (record_canceled n0)).
Proof.
  intros H Hc Hcs m. specialize (H m). rewrite lookup_modify.
  destruct (str_eqb m0 m) eqn:Em.
  - apply str_eqb_eq in Em. subst m0.
    unfold dict_get_default.
    assert (forall n, cs' m n = cs m n + one_if (str_eqb n0 n)) as Hcs'.
    { intros n. rewrite Hcs, str_eqb_refl. reflexivity. }
    assert (c' m = c m + 1) as Hc'.
    { rewrite Hc, str_eqb_refl. reflexivity. }
    destruct (dict_lookup monthly m) as [e|]; simpl in H |- *.
    + destruct H as (H1 & H2 & H3 & H4 & H5).
      repeat split; try lia.
      intros name. specialize (H5 name). rewrite lookup_modify, Hcs'.
      destruct (str_eqb n0 name) eqn:En; simpl.
      * apply str_eqb_eq in En. subst n0. unfold dict_get_default.
        destruct (dict_lookup (staff e) name); simpl in H5 |- *; lia.
      * now rewrite Z.add_0_r.
    + destruct H as (H1 & H2 & H3).
      repeat split; try lia.
      intros name. specialize (H3 name). rewrite Hcs'.
      destruct (str_eqb n0 name) eqn:En; simpl; try rewrite En; simpl; lia.
  - rewrite Hc, Em. unfold one_if. rewrite Z.add_0_r.
    assert (forall n, cs' m n = cs m n) as Hcs'.
    { intros n. rewrite Hcs, Em. simpl. lia. }
    destruct (dict_lookup monthly m) as [e|]; simpl in H |- *.
    + destruct H as (H1 & H2 & H3 & H4 & H5). repeat split; auto.
      intros name. rewrite Hcs'. apply H5.
    + destruct H as (H1 & H2 & H3). repeat split; auto;
        try rewrite Hcs'; apply H3.
Qed.

Definition tallies_of (l : list contract) (monthly : monthly_progress) : Prop :=
  tallies (fun m => events signed_month m l) (fun m => events cancel_month m l)
          (fun m n => staff_events signed_month m n l)
          (fun m n => staff_events cancel_month m n l) monthly.

Lemma tallies_add_contract l monthly c :
  tallies_of l monthly -> tallies_of (l ++ [c]) (add_contract monthly c).
Proof.
  unfold tallies_of, add_contract. intros H.
  assert (tallies (fun m => events signed_month m (l ++ [c]))
                  (fun m => events cancel_month m l)
                  (fun m n => staff_events signed_month m n (l ++ [c]))
                  (fun m n => staff_events cancel_month m n l)
                  match signed_month c with
                  | Some m => dict_modify monthly m no_progress (record_signed (staff_of c))
                  | None => monthly
                  end) as H1.
  { destruct (signed_month c) as [m0|] eqn:E.
    - eapply tallies_signed; [exact H | |].
      + intros m. rewrite events_snoc. unfold happens. now rewrite E.
      + intros m n. rewrite staff_events_snoc. unfold happens. now rewrite E.
    - intros m. specialize (H m). cbv beta in H |- *.
      rewrite events_snoc_none by exact E.
      assert (forall n, staff_events signed_month m n (l ++ [c])
                        = staff_events signed_month m n l) as Hn.
      { intros n. now apply staff_events_snoc_none. }
      destruct (dict_lookup monthly m); simpl in H |- *.
      + destruct H as (? & ? & ? & ? & H5). repeat split; auto.
        intros n. rewrite Hn. apply H5.
      + destruct H as (? & ? & H3). repeat split; auto; try rewrite Hn; apply H3. }
  destruct (cancel_month c) as [m0|] eqn:E.
  - eapply tallies_canceled; [exact H1 | |].
    + intros m. rewrite events_snoc. unfold happens. now rewrite E.
    + intros m n. rewrite staff_events_snoc. unfold happens. now rewrite E.
  - intros m. specialize (H1 m). cbv beta in H1 |- *.
    rewrite (@events_snoc_none cancel_month m l c E).
    assert (forall n, staff_events cancel_month m n (l ++ [c])
                      = staff_events cancel_month m n l) as Hn.
    { intros n. now apply staff_events_snoc_none. }
    destruct (dict_lookup _ m); simpl in H1 |- *.
    + destruct H1 as (? & ? & ? & ? & H5). repeat split; auto.
      intros n. rewrite Hn. apply H5.
    + destruct H1 as (? & ? & H3). repeat split; auto; try rewrite Hn; apply H3.
Qed.

Lemma tallies_fold cs l monthly :
  tallies_of l monthly -> tallies_of (l ++ cs) (fold_left add_contract cs monthly).
Proof.
  revert l monthly. induction cs as [|c cs IH]; intros l monthly H; simpl.
  - now rewrite app_nil_r.
  - replace (l ++ c :: cs) with ((l ++ [c]) ++ cs) by now rewrite <- app_assoc.
    apply IH. now apply tallies_add_contract.
Qed.

Lemma tallies_build contracts : tallies_of contracts (build_monthly_progress contracts).
Proof.
  apply (tallies_fold contracts (l := []) (monthly := [])).
  intros m. simpl. repeat split; reflexivity.
Qed.

(** The contract of the design document's example. *)
Definition tanaka_contract : contract :=
  {| staff_id := u "Tanaka";
     mediation_start_date := u "2025-04-10";
     status_date := [];
     cancel_reason := PNone;
     deal_status := [] |}.

(** A contract whose cancellation info gives no month: no info, no date
    in it, or one that is no date. *)
Definition no_cancel_date (c : contract) : Prop :=
  forall info, cancel_reason c = PDict info ->
               month_key_from_date (py_get info K_cancel_date) = None.

Lemma signed_month_eq c :
  signed_month c
  = month_key_from_date
      (PStr match mediation_start_date c with
            | [] => status_date c
            | d => d
            end).
Proof. unfold signed_month, py_or. simpl. now destruct (mediation_start_date c). Qed.

Lemma cancel_month_eq c :
  cancel_month c
  = match match cancel_reason c with
          | PDict info => month_key_from_date (py_get info K_cancel_date)
          | _ => None
          end with
    | Some m => Some m
    | None => if str_eqb (deal_status c) CANCELED
              then month_key_from_date (PStr (status_date c))
              else None
    end.
Proof. unfold cancel_month. now destruct (cancel_reason c). Qed.

Lemma cancel_month_fallback c :
  no_cancel_date c ->
  cancel_month c = if str_eqb (deal_status c) CANCELED
                   then month_key_from_date (PStr (status_date c))
                   else None.
Proof.
  intros H. rewrite cancel_month_eq. unfold no_cancel_date in H.
  destruct (cancel_reason c); try reflexivity.
  now rewrite (H _ eq_refl).
Qed.

(** Dates used as examples: a leap day, the same day a year later, and
    the design document's date with a full-width year. *)
Definition wide_year_date : str := [65298; 65296; 65298; 65301]%N ++ u "-04-10".

(** C2: every contract gives at most one signed event, in the month of its
    mediation start date when it has one and of its status date
    otherwise, and at most one canceled event, in the month of the
    cancellation date of its cancellation info when that names a month
    and otherwise, for a canceled deal, of its status date.  The month of
    a date text is the year and month [strptime] reads from it: the
    ISO text of a date [y]-[m]-[d] of the calendar gives the key
    [y]-[m], an ISO text that names no date of the calendar gives none,
    nor does the empty text or something that is no text, and whenever a
    key is given the text reads as a date of the calendar whose year
    and month the key is.  A month has an entry exactly when an event
    falls in it; the entry's [signed] and [canceled] count the events of
    the month, [net] is their difference, and the same holds per member
    of staff, under the sentinel for a contract without one.  The single
    Tanaka contract gives the month 2025-04 with one signed event. *)
Theorem build_monthly_progress_counts (contracts : list contract) :
  (forall c,
      signed_month c
      = month_key_from_date
          (PStr match mediation_start_date c with
                | [] => status_date c
                | d => d
                end)
      /\ cancel_month c
         = match match cancel_reason c with
                 | PDict info => month_key_from_date (py_get info K_cancel_date)
                 | _ => None
                 end with
           | Some m => Some m
           | None => if str_eqb (deal_status c) CANCELED
                     then month_key_from_date (PStr (status_date c))
                     else None
           end
      /\ staff_of c = match staff_id c with [] => UNASSIGNED | name => name end)
  /\ (forall y m d,
      is_date y m d ->
      month_key_from_date (PStr (iso_date y m d)) = Some (month_text y m))
  /\ (forall y m d,
      (y <= 9999)%N -> (1 <= m <= 12)%N -> (1 <= d <= 31)%N -> ~ is_date y m d ->
      month_key_from_date (PStr (iso_date y m d)) = None)
  /\ (forall v k,
      month_key_from_date v = Some k ->
      exists s y m d,
        v = PStr s /\ s <> [] /\ reads_as s y m d /\ is_date y m d
        /\ k = month_text y m)
  /\ (forall v,
      (forall s, v <> PStr s) \/ v = PStr [] -> month_key_from_date v = None)
  /\ (forall c y m d,
      is_date y m d ->
      (mediation_start_date c = iso_date y m d ->
       signed_month c = Some (month_text y m))
      /\ (mediation_start_date c = [] -> status_date c = iso_date y m d ->
          signed_month c = Some (month_text y m))
      /\ (forall info,
           cancel_reason c = PDict info ->
           py_get info K_cancel_date = PStr (iso_date y m d) ->
           cancel_month c = Some (month_text y m))
      /\ (no_cancel_date c -> deal_status c = CANCELED ->
          status_date c = iso_date y m d ->
          cancel_month c = Some (month_text y m)))
  /\ (forall c,
      (mediation_start_date c = [] -> status_date c = [] -> signed_month c = None)
      /\ (mediation_start_date c <> [] ->
          month_key_from_date (PStr (mediation_start_date c)) = None ->
          signed_month c = None)
      /\ (no_cancel_date c -> deal_status c <> CANCELED -> cancel_month c = None))
  /\ month_key_from_date (PStr wide_year_date) = Some (u "2025-04")
  /\ month_key_from_date (PStr (u "2025-4-1")) = Some (u "2025-04")
  /\ month_key_from_date (PStr (u "2025/04/10")) = None
  /\ month_key_from_date (PStr (u "2025-04-10T09:00:00")) = None
  /\ (forall m,
      match dict_lookup (build_monthly_progress contracts) m with
      | None =>
          events signed_month m contracts = 0 /\ events cancel_month m contracts = 0
      | Some e =>
          signed e = events signed_month m contracts
          /\ canceled e = events cancel_month m contracts
          /\ net e = signed e - canceled e
          /\ 0 < signed e + canceled e
          /\ forall name,
              match dict_lookup (staff e) name with
              | None =>
                  staff_events signed_month m name contracts = 0
                  /\ staff_events cancel_month m name contracts = 0
              | Some s =>
                  staff_signed s = staff_events signed_month m name contracts
                  /\ staff_canceled s = staff_events cancel_month m name contracts
                  /\ staff_net s = staff_signed s - staff_canceled s
                  /\ 0 < staff_signed s + staff_canceled s
              end
      end)
  /\ build_monthly_progress [tanaka_contract]
     = [(u "2025-04",
         {| signed := 1; canceled := 0; net := 1;
            staff := [(u "Tanaka",
                       {| staff_signed := 1; staff_canceled := 0; staff_net := 1 |})] |})].
Proof.
  split; [|split; [|split; [|split; [|split; [|split; [|split]]]]]].
  - intros c. split; [apply signed_month_eq|]. split; [apply cancel_month_eq|].
    reflexivity.
  - apply month_key_from_date_iso.
  - apply month_key_from_date_no_date.
  - apply month_key_from_date_some.
  - apply month_key_from_date_none.
  - intros c y m d Hd.
    pose proof (month_key_from_date_iso Hd) as Hk.
    pose proof (@iso_date_not_empty y m d) as Hne.
    split; [|split; [|split]].
    + intros E. rewrite signed_month_eq, E.
      destruct (iso_date y m d); [congruence | exact Hk].
    + intros E1 E2. now rewrite signed_month_eq, E1, E2.
    + intros info E1 E2. now rewrite cancel_month_eq, E1, E2, Hk.
    + intros Hno E1 E2. rewrite (cancel_month_fallback Hno), E1, E2.
      now rewrite str_eqb_refl.
  - intros c. split; [|split].
    + intros E1 E2. now rewrite signed_month_eq, E1, E2.
    + intros E1 E2. rewrite signed_month_eq.
      destruct (mediation_start_date c); [congruence | exact E2].
    + intros Hno E. rewrite (cancel_month_fallback Hno).
      destruct (str_eqb (deal_status c) CANCELED) eqn:Eq; [|reflexivity].
      apply str_eqb_eq in Eq. contradiction.
  - split; [vm_compute; reflexivity|].
    split; [vm_compute; reflexivity|].
    split; [vm_compute; reflexivity|].
    split; [vm_compute; reflexivity|].
    split.
    + intros m. pose proof (tallies_build contracts m) as H. cbv beta in H.
      destruct (dict_lookup (build_monthly_progress contracts) m) as [e|]; simpl in H.
      * destruct H as (H1 & H2 & H3 & H4 & H5). repeat split; try lia.
        intros name. specialize (H5 name).
        destruct (dict_lookup (staff e) name); simpl in H5.
        -- destruct H5 as (? & ? & ? & ?). repeat split; lia.
        -- exact H5.
      * destruct H as (H1 & H2 & _). now split.
    + vm_compute. reflexivity.
Qed.

(** A contract canceled on the leap day of 2024 by its status date, and
    one whose cancellation info carries the date. *)
Definition leap_day_contract : contract :=
  {| staff_id := [];
     mediation_start_date := [];
     status_date := u "2024-02-29";
     cancel_reason := PNone;
     deal_status := CANCELED |}.

Definition info_contract : contract :=
  {| staff_id := u "Tanaka";
     mediation_start_date := u "2025-04-10";
     status_date := u "2025-06-01";
     cancel_reason := PDict [(K_cancel_date, PStr (u "2025-05-31"))];
     deal_status := CANCELED |}.

Lemma leap_day : is_date 2024 2 29.
Proof. unfold is_date. change (days_in_month 2024 2) with 29%N. lia. Defined.

Lemma no_leap_day : ~ is_date 2025 2 29.
Proof. unfold is_date. change (days_in_month 2025 2) with 28%N. lia. Defined.

Lemma last_of_may : is_date 2025 5 31.
Proof. unfold is_date. change (days_in_month 2025 5) with 31%N. lia. Defined.

Lemma tenth_of_april : is_date 2025 4 10.
Proof. unfold is_date. change (days_in_month 2025 4) with 30%N. lia. Defined.

Lemma build_monthly_progress_counts_witness :
  is_date 2024 2 29
  /\ ~ is_date 2025 2 29
  /\ month_key_from_date (PStr (u "2024-02-29")) = Some (u "2024-02")
  /\ month_key_from_date (PStr (u "2025-02-29")) = None
  /\ signed_month leap_day_contract = Some (u "2024-02")
  /\ cancel_month leap_day_contract = Some (u "2024-02")
  /\ signed_month info_contract = Some (u "2025-04")
  /\ cancel_month info_contract = Some (u "2025-05")
  /\ (exists y m d, reads_as (u "2025-04-10") y m d /\ is_date y m d
                    /\ u "2025-04" = month_text y m).
Proof.
  destruct (build_monthly_progress_counts [leap_day_contract; info_contract])
    as (_ & Hiso & Hnone & Hsome & _ & Hcontract & _).
  split; [exact leap_day|]. split; [exact no_leap_day|].
  split; [exact (Hiso 2024 2 29 leap_day)%N|].
  split.
  { apply (Hnone 2025 2 29)%N; [lia | lia | lia | exact no_leap_day]. }
  destruct (Hcontract leap_day_contract 2024 2 29 leap_day)%N
    as (_ & Hstatus & _ & Hfallback).
  destruct (Hcontract info_contract 2025 4 10 tenth_of_april)%N as (Hsigned & _).
  destruct (Hcontract info_contract 2025 5 31 last_of_may)%N as (_ & _ & Hinfo & _).
  split; [exact (Hstatus eq_refl eq_refl)|].
  split.
  { apply Hfallback; try reflexivity. intros info E. discriminate E. }
  split; [exact (Hsigned eq_refl)|].
  split.
  { exact (Hinfo [(K_cancel_date, PStr (u "2025-05-31"))] eq_refl eq_refl). }
  destruct (Hsome (PStr (u "2025-04-10")) (u "2025-04") eq_refl)
    as (s & y & m & d & E & _ & Hr & Hd & Hk).
  injection E as <-. exists y, m, d. auto.
Defined.

End ProgressFacts.

(* ================================================================== *)
(** * Properties of the yearly roll-up                              *)
(* ================================================================== *)

Module RollupFacts.
Import Py PyFacts Progress ProgressFacts Rollup.
#[local] Open Scope Z_scope.

(** ** Months of a year and sums over them *)

Definition valid_month (m : str) : bool := truthy (PStr m) && has_dash m.

(** The month key [m] counts for the year [y]. *)
Definition belongs (y m : str) : bool := valid_month m && str_eqb (before_dash m) y.

Definition month_of (mp : monthly_progress) (m : str) : month_progress :=
  dict_get_default mp m no_progress.

(** The sum of a counter over the months [ms]. *)
Definition total (f : month_progress -> Z) (mp : monthly_progress) (ms : list str) : Z :=
  fold_right (fun m acc => f (month_of mp m) + acc) 0 ms.

(** What the items of one month's staff dict add for [name]. *)
Definition staff_part (f : staff_progress -> Z) (name : str)
  (st : list (str * staff_progress)) : Z :=
  fold_right (fun ns acc => if str_eqb (fst ns) name then f (snd ns) + acc else acc) 0 st.

Definition staff_total (f : staff_progress -> Z) (name : str)
  (mp : monthly_progress) (ms : list str) : Z :=
  fold_right (fun m acc => staff_part f name (staff (month_of mp m)) + acc) 0 ms.

(** The counter of [name] in a staff dict, 0 when [name] has no entry. *)
Definition staff_value (f : staff_progress -> Z) (name : str)
  (st : list (str * staff_progress)) : Z :=
  match dict_lookup st name with
  | Some e => f e
  | None => 0
  end.

Definition goal_total (goals : goals_data) (ms : list str) : Z :=
  fold_right (fun m acc => storeTarget (get_goal_for_month m goals) + acc) 0 ms.

Lemma total_snoc f mp ms m : total f mp (ms ++ [m]) = total f mp ms + f (month_of mp m).
Proof. unfold total. induction ms as [|x ms IH]; simpl; [lia | rewrite IH; lia]. Qed.

Lemma staff_total_snoc f name mp ms m :
  staff_total f name mp (ms ++ [m])
  = staff_total f name mp ms + staff_part f name (staff (month_of mp m)).
Proof. unfold staff_total. induction ms as [|x ms IH]; simpl; [lia | rewrite IH; lia]. Qed.

Lemma goal_total_snoc goals ms m :
  goal_total goals (ms ++ [m])
  = goal_total goals ms + storeTarget (get_goal_for_month m goals).
Proof. unfold goal_total. induction ms as [|x ms IH]; simpl; [lia | rewrite IH; lia]. Qed.

Lemma total_perm f mp l l' : Permutation l l' -> total f mp l = total f mp l'.
Proof. unfold total. induction 1; simpl; lia. Qed.

Lemma staff_total_perm f name mp l l' :
  Permutation l l' -> staff_total f name mp l = staff_total f name mp l'.
Proof. unfold staff_total. induction 1; simpl; lia. Qed.

Lemma goal_total_perm goals l l' :
  Permutation l l' -> goal_total goals l = goal_total goals l'.
Proof. unfold goal_total. induction 1; simpl; lia. Qed.

(** ** Adding one month's staff progress *)

(** A counter that [add_staff_progress] adds up. *)
Definition additive (f : staff_progress -> Z) : Prop :=
  f no_staff_progress = 0 /\
  forall e s,
    f {| staff_signed := staff_signed e + staff_signed s;
         staff_canceled := staff_canceled e + staff_canceled s;
         staff_net := staff_net e + staff_net s |} = f e + f s.

Lemma additive_signed : additive staff_signed.
Proof. split; reflexivity. Qed.
Lemma additive_canceled : additive staff_canceled.
Proof. split; reflexivity. Qed.
Lemma additive_net : additive staff_net.
Proof. split; reflexivity. Qed.

Lemma add_staff_progress_value f name acc ms :
  additive f ->
  staff_value f name (add_staff_progress acc ms)
  = staff_value f name acc + staff_part f name ms.
Proof.
  intros [Hzero Hadd]. unfold add_staff_progress. revert acc.
  induction ms as [|[n s] ms IH]; intros acc; simpl; [lia|].
  rewrite IH. unfold staff_value at 1. rewrite lookup_modify.
  destruct (str_eqb n name) eqn:E.
  - apply str_eqb_eq in E. subst n. rewrite Hadd.
    unfold staff_value, dict_get_default.
    destruct (dict_lookup acc name); simpl; lia.
  - fold (staff_value f name acc). lia.
Qed.

Lemma add_staff_progress_none name acc ms :
  dict_lookup (add_staff_progress acc ms) name = None <->
  dict_lookup acc name = None /\ ~ In name (keys ms).
Proof.
  unfold add_staff_progress. revert acc.
  induction ms as [|[n s] ms IH]; intros acc; simpl; [tauto|].
  rewrite IH, lookup_modify.
  destruct (str_eqb n name) eqn:E.
  - apply str_eqb_eq in E. subst n. split; [intros [H _]; discriminate|].
    intros [_ H]. exfalso. apply H. now left.
  - apply str_eqb_neq in E. tauto.
Qed.

(** ** The entry of a year after the months [done] *)

Record entry_ok (mp : monthly_progress) (goals : goals_data) (ms : list str)
  (e : yearly_entry) : Prop := {
  ok_months : months e = ms;
  ok_goal : storeTarget (year_goal e) = goal_total goals ms;
  ok_target : monthlyTargetTotal e = goal_total goals ms;
  ok_signed : signed (progress e) = total signed mp ms;
  ok_canceled : canceled (progress e) = total canceled mp ms;
  ok_net : net (progress e) = total net mp ms;
  ok_staff : forall f name, additive f ->
      staff_value f name (staff (progress e)) = staff_total f name mp ms;
  ok_absent : forall name,
      dict_lookup (staff (progress e)) name = None <->
      forall m, In m ms -> ~ In name (keys (staff (month_of mp m)))
}.

Lemma fresh_entry_ok mp goals : entry_ok mp goals [] fresh_entry.
Proof.
  constructor; try reflexivity.
  intros name. simpl. split; [intros _ m [] | reflexivity].
Qed.

Lemma add_month_ok mp goals ms m e :
  ~ In m ms -> entry_ok mp goals ms e ->
  entry_ok mp goals (ms ++ [m])
    (add_month m (get_goal_for_month m goals) (month_of mp m) e).
Proof.
  intros Hnew [H1 H2 H3 H4 H5 H6 H7 H8].
  constructor; cbn [add_month months year_goal monthlyTargetTotal progress
                      storeTarget signed canceled net staff].
  - assert (str_in m (months e) = false) as ->; [|now rewrite H1].
    destruct (str_in m (months e)) eqn:E; [|reflexivity].
    apply str_in_iff in E. rewrite H1 in E. contradiction.
  - rewrite goal_total_snoc. lia.
  - rewrite goal_total_snoc. lia.
  - rewrite total_snoc. lia.
  - rewrite total_snoc. lia.
  - rewrite total_snoc. lia.
  - intros f name Hf. rewrite add_staff_progress_value by exact Hf.
    rewrite staff_total_snoc, H7 by exact Hf. reflexivity.
  - intros name. rewrite add_staff_progress_none, H8. split.
    + intros [Hold Hm] m' Hin. apply in_app_or in Hin as [Hin|[<-|[]]]; auto.
    + intros H. split.
      * intros m' Hin. apply H. apply in_or_app. now left.
      * apply H. apply in_or_app. right. now left.
Qed.

(** The state of the loop over the month keys after the keys [done]. *)
Definition summed (mp : monthly_progress) (goals : goals_data) (done : list str)
  (yearly : yearly_progress) : Prop :=
  forall y,
    match dict_lookup yearly y with
    | Some e => entry_ok mp goals (filter (belongs y) done) e
    | None => filter (belongs y) done = []
    end.

Definition sum_step (mp : monthly_progress) (goals : goals_data)
  (yearly : yearly_progress) (month_key : str) : yearly_progress :=
  if negb (truthy (PStr month_key)) || negb (has_dash month_key)
  then yearly
  else
    dict_modify yearly (before_dash month_key) fresh_entry
      (add_month month_key
         (get_goal_for_month month_key goals)
         (dict_get_default mp month_key no_progress)).

Lemma summed_step mp goals done yearly m :
  ~ In m done -> summed mp goals done yearly ->
  summed mp goals (done ++ [m]) (sum_step mp goals yearly m).
Proof.
  intros Hnew H y. specialize (H y). unfold sum_step.
  rewrite filter_app. cbn [filter]. unfold belongs at 2 4.
  fold (valid_month m).
  assert (negb (truthy (PStr m)) || negb (has_dash m) = negb (valid_month m)) as ->.
  { unfold valid_month. now rewrite negb_andb. }
  destruct (valid_month m) eqn:Ev; cbn [negb andb].
  2:{ now rewrite app_nil_r. }
  rewrite lookup_modify.
  destruct (str_eqb (before_dash m) y) eqn:Ey.
  - apply str_eqb_eq in Ey. subst y. fold (month_of mp m).
    apply add_month_ok.
    + intros Hin. apply filter_In in Hin. tauto.
    + unfold dict_get_default.
      destruct (dict_lookup yearly (before_dash m)); [exact H|].
      rewrite H. apply fresh_entry_ok.
  - now rewrite app_nil_r.
Qed.

Lemma summed_fold mp goals ks done yearly :
  NoDup (done ++ ks) -> summed mp goals done yearly ->
  summed mp goals (done ++ ks) (fold_left (sum_step mp goals) ks yearly).
Proof.
  revert done yearly. induction ks as [|k ks IH]; intros done yearly Hnd H; simpl.
  - now rewrite app_nil_r.
  - replace (done ++ k :: ks) with ((done ++ [k]) ++ ks) in * by now rewrite <- app_assoc.
    apply IH; [exact Hnd|]. apply summed_step; [|exact H].
    apply NoDup_app_remove_r in Hnd. apply NoDup_remove_2 in Hnd.
    now rewrite app_nil_r in Hnd.
Qed.

Lemma seed_years_fresh goals y e :
  dict_lookup (seed_years goals) y = Some e -> e = fresh_entry.
Proof.
  unfold seed_years.
  assert (forall ks yearly,
             (forall e', dict_lookup yearly y = Some e' -> e' = fresh_entry) ->
             dict_lookup
               (fold_left
                  (fun yearly year_key =>
                     if truthy (PStr year_key) && negb (has_dash year_key)
                     then dict_modify yearly year_key fresh_entry (fun e => e)
                     else yearly) ks yearly) y = Some e ->
             e = fresh_entry) as H.
  { induction ks as [|k ks IH]; intros yearly Hy; cbn [fold_left]; [apply Hy|].
    apply IH. destruct (truthy (PStr k) && negb (has_dash k)); [|exact Hy].
    intros e'. rewrite lookup_modify. destruct (str_eqb k y) eqn:E; [|apply Hy].
    apply str_eqb_eq in E. subst k. unfold dict_get_default.
    destruct (dict_lookup yearly y) eqn:El; intros [= <-]; auto. }
  apply H. discriminate.
Qed.

Lemma seed_years_has goals y :
  In y (keys (annual goals)) -> y <> [] -> has_dash y = false ->
  dict_lookup (seed_years goals) y <> None.
Proof.
  unfold seed_years. intros Hin Hne Hdash.
  assert (forall ks yearly,
             In y ks \/ dict_lookup yearly y <> None ->
             dict_lookup
               (fold_left
                  (fun yearly year_key =>
                     if truthy (PStr year_key) && negb (has_dash year_key)
                     then dict_modify yearly year_key fresh_entry (fun e => e)
                     else yearly) ks yearly) y <> None) as H.
  { induction ks as [|k ks IH]; intros yearly Hy; cbn [fold_left].
    - destruct Hy as [[]|Hy]; exact Hy.
    - apply IH. destruct Hy as [[->|Hy]|Hy]; auto.
      + right. assert (truthy (PStr y) = true) as -> by (destruct y; auto; contradiction).
        rewrite Hdash. cbn [negb andb]. rewrite lookup_modify, str_eqb_refl. discriminate.
      + right. destruct (truthy (PStr k) && negb (has_dash k)); [|exact Hy].
        rewrite lookup_modify. destruct (str_eqb k y); [discriminate | exact Hy]. }
  apply H. now left.
Qed.

Lemma sum_step_keeps mp goals yearly m y :
  dict_lookup yearly y <> None -> dict_lookup (sum_step mp goals yearly m) y <> None.
Proof.
  unfold sum_step. destruct (_ || _); [auto|].
  rewrite lookup_modify. destruct (str_eqb _ y); [discriminate | auto].
Qed.

Lemma seed_years_only goals y :
  dict_lookup (seed_years goals) y <> None ->
  In y (keys (annual goals)) /\ y <> [] /\ has_dash y = false.
Proof.
  unfold seed_years.
  assert (forall ks yearly,
             dict_lookup
               (fold_left
                  (fun yearly year_key =>
                     if truthy (PStr year_key) && negb (has_dash year_key)
                     then dict_modify yearly year_key fresh_entry (fun e => e)
                     else yearly) ks yearly) y <> None ->
             dict_lookup yearly y <> None
             \/ (In y ks /\ y <> [] /\ has_dash y = false)) as H.
  { induction ks as [|k ks IH]; intros yearly Hy; cbn [fold_left] in Hy; [now left|].
    apply IH in Hy. destruct Hy as [Hy|(Hin & Hy)]; [|right; split; [now right | exact Hy]].
    destruct (truthy (PStr k) && negb (has_dash k)) eqn:Ek; [|now left].
    rewrite lookup_modify in Hy. destruct (str_eqb k y) eqn:E; [|now left].
    apply str_eqb_eq in E. subst k. right.
    apply andb_prop in Ek. destruct Ek as [Et Ed].
    split; [now left|]. split.
    - intros ->. discriminate.
    - now destruct (has_dash y). }
  intros Hy. apply H in Hy. destruct Hy as [Hy|Hy]; [now destruct Hy | exact Hy].
Qed.

Lemma sum_fold_only mp goals ks yearly y :
  dict_lookup (fold_left (sum_step mp goals) ks yearly) y <> None ->
  dict_lookup yearly y <> None \/ exists m, In m ks /\ belongs y m = true.
Proof.
  revert yearly. induction ks as [|k ks IH]; intros yearly Hy; cbn [fold_left] in Hy;
    [now left|].
  apply IH in Hy. destruct Hy as [Hy|(m & Hin & Hm)].
  2:{ right. exists m. split; [now right | exact Hm]. }
  unfold sum_step in Hy.
  destruct (negb (truthy (PStr k)) || negb (has_dash k)) eqn:Ek; [now left|].
  rewrite lookup_modify in Hy.
  destruct (str_eqb (before_dash k) y) eqn:E; [|now left].
  right. exists k. split; [now left|].
  unfold belongs, valid_month. rewrite E.
  apply orb_false_elim in Ek. destruct Ek as [E1 E2].
  apply negb_false_iff in E1, E2. now rewrite E1, E2.
Qed.

(** A change of the values that leaves the keys alone. *)
Lemma lookup_map_values (V W : Type) (f : str -> V -> W) (d : list (str * V)) (y : str) :
  dict_lookup (map (fun kv => (fst kv, f (fst kv) (snd kv))) d) y
  = option_map (f y) (dict_lookup d y).
Proof.
  induction d as [|[k v] d IH]; simpl; [reflexivity|].
  destruct (str_eqb k y) eqn:E; [|exact IH].
  apply str_eqb_eq in E. now subst.
Qed.

Lemma distinct_spec (l : list str) :
  NoDup (distinct l) /\ forall x, In x (distinct l) <-> In x l.
Proof.
  induction l as [|a l [IH1 IH2]]; simpl.
  - split; [constructor | tauto].
  - destruct (str_in a l) eqn:E.
    + apply str_in_iff in E. split; [exact IH1|].
      intros x. rewrite IH2. split; [auto | intros [->|H]; auto].
    + split.
      * constructor; [|exact IH1]. rewrite IH2. intros Hin.
        apply str_in_iff in Hin. congruence.
      * intros x. simpl. now rewrite IH2.
Qed.

Section WithSetOrder.

Variable set_order : list str -> list str.

(** Iterating a set meets each member once. *)
Hypothesis set_order_spec :
  forall l, NoDup (set_order l) /\ forall x, In x (set_order l) <-> In x l.

Lemma sum_months_summed mp goals :
  summed mp goals (set_order (keys mp ++ keys (monthly goals)))
    (sum_months set_order mp goals (seed_years goals)).
Proof.
  change (sum_months set_order mp goals (seed_years goals))
    with (fold_left (sum_step mp goals)
            (set_order (keys mp ++ keys (monthly goals))) (seed_years goals)).
  apply (@summed_fold mp goals (set_order (keys mp ++ keys (monthly goals))) []).
  - apply set_order_spec.
  - intros y. destruct (dict_lookup (seed_years goals) y) as [e|] eqn:E; [|reflexivity].
    apply seed_years_fresh in E. subst e. apply fresh_entry_ok.
Qed.

Lemma build_yearly_progress_lookup mp goals y :
  dict_lookup (build_yearly_progress set_order mp goals) y
  = option_map
      (fun e =>
         let sorted :=
           {| months := sorted_by str_leb (months e);
              year_goal := year_goal e;
              monthlyTargetTotal := monthlyTargetTotal e;
              progress := progress e |} in
         match get_goal_for_year y goals false with
         | Some annual_goal =>
             {| months := months sorted;
                year_goal := annual_goal;
                monthlyTargetTotal := monthlyTargetTotal sorted;
                progress := progress sorted |}
         | None => sorted
         end)
      (dict_lookup (sum_months set_order mp goals (seed_years goals)) y).
Proof.
  unfold build_yearly_progress, override_goals, sort_months.
  rewrite (lookup_map_values
             (fun k e => match get_goal_for_year k goals false with
                         | Some annual_goal =>
                             {| months := months e; year_goal := annual_goal;
                                monthlyTargetTotal := monthlyTargetTotal e;
                                progress := progress e |}
                         | None => e
                         end)).
  rewrite (lookup_map_values
             (fun _ e => {| months := sorted_by str_leb (months e);
                            year_goal := year_goal e;
                            monthlyTargetTotal := monthlyTargetTotal e;
                            progress := progress e |})).
  now destruct (dict_lookup _ y).
Qed.

Lemma sum_months_has mp goals m :
  In m (keys mp) \/ In m (keys (monthly goals)) -> valid_month m = true ->
  dict_lookup (sum_months set_order mp goals (seed_years goals)) (before_dash m) <> None.
Proof.
  intros Hin Hv. pose proof (sum_months_summed mp goals (before_dash m)) as H.
  destruct (dict_lookup _ (before_dash m)); [discriminate|].
  assert (In m (filter (belongs (before_dash m))
                  (set_order (keys mp ++ keys (monthly goals))))) as Hm.
  { apply filter_In. split.
    - apply set_order_spec, in_or_app. exact Hin.
    - unfold belongs. now rewrite Hv, str_eqb_refl. }
  rewrite H in Hm. destruct Hm.
Qed.

Lemma sum_months_only mp goals y :
  dict_lookup (sum_months set_order mp goals (seed_years goals)) y <> None ->
  (exists m, (In m (keys mp) \/ In m (keys (monthly goals))) /\ belongs y m = true)
  \/ (In y (keys (annual goals)) /\ y <> [] /\ has_dash y = false).
Proof.
  change (sum_months set_order mp goals (seed_years goals))
    with (fold_left (sum_step mp goals)
            (set_order (keys mp ++ keys (monthly goals))) (seed_years goals)).
  intros H. apply sum_fold_only in H. destruct H as [H|(m & Hin & Hm)].
  - right. now apply seed_years_only.
  - left. exists m. split; [|exact Hm].
    apply (proj1 (proj2 (set_order_spec _) m)) in Hin. now apply in_app_or.
Qed.

(** C3: in the entry of a year, the goal is the explicitly set annual goal
    when there is one (and the sum of the monthly goals otherwise), while
    the progress counters and the per-staff counters are the sums of the
    monthly progress over the year's months, the month keys of the
    progress and of the monthly goals that start with the year.  Every
    explicitly set year without a dash in its key has an entry, and so
    has the year of every month key of the progress or of the monthly
    goals, with or without an annual goal; there are no other entries.
    The total of the monthly targets stays the sum over the months. *)
Theorem build_yearly_progress_rollup (monthly_progress : Progress.monthly_progress)
  (goals : goals_data) :
  (forall y info,
      dict_lookup (build_yearly_progress set_order monthly_progress goals) y = Some info ->
      (forall annual_goal,
          dict_lookup (annual goals) y = Some annual_goal -> year_goal info = annual_goal)
      /\ (dict_lookup (annual goals) y = None ->
          storeTarget (year_goal info) = goal_total goals (months info))
      /\ (forall m, In m (months info) <->
                    (In m (keys monthly_progress) \/ In m (keys (monthly goals)))
                    /\ belongs y m = true)
      /\ signed (progress info) = total signed monthly_progress (months info)
      /\ canceled (progress info) = total canceled monthly_progress (months info)
      /\ net (progress info) = total net monthly_progress (months info)
      /\ (forall name,
             staff_value staff_signed name (staff (progress info))
             = staff_total staff_signed name monthly_progress (months info)
             /\ staff_value staff_canceled name (staff (progress info))
                = staff_total staff_canceled name monthly_progress (months info)
             /\ staff_value staff_net name (staff (progress info))
                = staff_total staff_net name monthly_progress (months info)
             /\ (dict_lookup (staff (progress info)) name = None <->
                 forall m, In m (months info) ->
                           ~ In name (keys (staff (month_of monthly_progress m))))))
  /\ (forall y annual_goal,
      dict_lookup (annual goals) y = Some annual_goal -> y <> [] -> has_dash y = false ->
      exists info,
        dict_lookup (build_yearly_progress set_order monthly_progress goals) y = Some info
        /\ year_goal info = annual_goal)
  /\ (forall m,
      In m (keys monthly_progress) \/ In m (keys (monthly goals)) ->
      valid_month m = true ->
      exists info,
        dict_lookup (build_yearly_progress set_order monthly_progress goals)
          (before_dash m) = Some info
        /\ In m (months info))
  /\ (forall y info,
      dict_lookup (build_yearly_progress set_order monthly_progress goals) y = Some info ->
      (exists m, In m (months info))
      \/ (In y (keys (annual goals)) /\ y <> [] /\ has_dash y = false))
  /\ (forall y info,
      dict_lookup (build_yearly_progress set_order monthly_progress goals) y = Some info ->
      monthlyTargetTotal info = goal_total goals (months info)).
Proof.
  assert (forall y info,
             dict_lookup (build_yearly_progress set_order monthly_progress goals) y
             = Some info ->
             exists e,
               dict_lookup (sum_months set_order monthly_progress goals (seed_years goals)) y
               = Some e
               /\ months info = sorted_by str_leb (months e)
               /\ monthlyTargetTotal info = monthlyTargetTotal e
               /\ entry_ok monthly_progress goals
                    (filter (belongs y)
                       (set_order (keys monthly_progress ++ keys (monthly goals)))) e)
    as Hfrom.
  { intros y info. rewrite build_yearly_progress_lookup.
    pose proof (sum_months_summed monthly_progress goals y) as Hsum.
    destruct (dict_lookup (sum_months set_order monthly_progress goals (seed_years goals)) y)
      as [e|]; [|discriminate].
    cbn [option_map]. intros [= <-]. exists e.
    split; [reflexivity|].
    destruct (get_goal_for_year y goals false); cbn [months monthlyTargetTotal]; auto. }
  split; [|split; [|split; [|split]]].
  - intros y info. rewrite build_yearly_progress_lookup.
    pose proof (sum_months_summed monthly_progress goals y) as Hsum.
    destruct (dict_lookup (sum_months set_order monthly_progress goals (seed_years goals)) y)
      as [e|]; [|discriminate].
    destruct Hsum as [H1 H2 H3 H4 H5 H6 H7 H8].
    set (ms := filter (belongs y)
                 (set_order (keys monthly_progress ++ keys (monthly goals)))) in *.
    assert (Permutation (sorted_by str_leb (months e)) ms) as Hperm.
    { rewrite sorted_by_perm. now rewrite H1. }
    assert (forall m, In m ms <->
                      (In m (keys monthly_progress) \/ In m (keys (monthly goals)))
                      /\ belongs y m = true) as Hin.
    { intros m. unfold ms. rewrite filter_In.
      rewrite (proj2 (set_order_spec _)), in_app_iff. tauto. }
    cbn [option_map]. unfold get_goal_for_year.
    assert (forall info',
               months info' = sorted_by str_leb (months e) ->
               progress info' = progress e ->
               (forall m, In m (months info') <->
                    (In m (keys monthly_progress) \/ In m (keys (monthly goals)))
                    /\ belongs y m = true)
               /\ signed (progress info') = total signed monthly_progress (months info')
               /\ canceled (progress info') = total canceled monthly_progress (months info')
               /\ net (progress info') = total net monthly_progress (months info')
               /\ (forall name,
                      staff_value staff_signed name (staff (progress info'))
                      = staff_total staff_signed name monthly_progress (months info')
                      /\ staff_value staff_canceled name (staff (progress info'))
                         = staff_total staff_canceled name monthly_progress (months info')
                      /\ staff_value staff_net name (staff (progress info'))
                         = staff_total staff_net name monthly_progress (months info')
                      /\ (dict_lookup (staff (progress info')) name = None <->
                          forall m, In m (months info') ->
                             ~ In name (keys (staff (month_of monthly_progress m))))))
      as Hrest.
    { intros info' Hm Hp. rewrite Hm, Hp.
      split.
      { intros m. rewrite <- Hin. split; apply Permutation_in;
          [exact Hperm | now apply Permutation_sym]. }
      rewrite !(total_perm _ _ Hperm).
      repeat split; try assumption.
      - rewrite (staff_total_perm _ _ _ Hperm). apply H7, additive_signed.
      - rewrite (staff_total_perm _ _ _ Hperm). apply H7, additive_canceled.
      - rewrite (staff_total_perm _ _ _ Hperm). apply H7, additive_net.
      - intros Hnone m Hm'. apply (proj1 (H8 name) Hnone).
        now apply (Permutation_in _ Hperm).
      - intros Hall. apply H8. intros m Hm'. apply Hall.
        now apply (Permutation_in _ (Permutation_sym Hperm)). }
    destruct (dict_lookup (annual goals) y) as [g|] eqn:Eg; intros [= <-].
    + split; [now intros ? [= <-]|]. split; [discriminate|].
      now apply Hrest.
    + split; [discriminate|]. split.
      * intros _. cbn [year_goal months]. rewrite H2.
        apply goal_total_perm. now apply Permutation_sym.
      * now apply Hrest.
  - clear Hfrom. intros y g Hg Hne Hdash.
    rewrite build_yearly_progress_lookup.
    assert (dict_lookup (sum_months set_order monthly_progress goals (seed_years goals)) y
            <> None) as Hhas.
    { change (sum_months set_order monthly_progress goals (seed_years goals))
        with (fold_left (sum_step monthly_progress goals)
                (set_order (keys monthly_progress ++ keys (monthly goals)))
                (seed_years goals)).
      assert (dict_lookup (seed_years goals) y <> None) as Hseed.
      { apply seed_years_has; auto. eapply lookup_in_keys; exact Hg. }
      revert Hseed. generalize (seed_years goals).
      induction (set_order (keys monthly_progress ++ keys (monthly goals)))
        as [|k ks IH]; intros yearly Hy; simpl; [exact Hy|].
      apply IH. now apply sum_step_keeps. }
    destruct (dict_lookup (sum_months set_order monthly_progress goals (seed_years goals)) y)
      as [e|]; [|contradiction].
    cbn [option_map]. unfold get_goal_for_year. rewrite Hg.
    eexists. split; reflexivity.
  - intros m Hin Hv.
    pose proof (@sum_months_has monthly_progress goals m Hin Hv) as Hhas.
    destruct (dict_lookup (build_yearly_progress set_order monthly_progress goals)
                (before_dash m)) as [info|] eqn:Einfo.
    + exists info. split; [reflexivity|].
      destruct (Hfrom _ _ Einfo) as (e & _ & Hm & _ & Hok).
      rewrite Hm. apply (Permutation_in _ (Permutation_sym (sorted_by_perm str_leb _))).
      rewrite (ok_months Hok). apply filter_In. split.
      * apply set_order_spec, in_or_app. exact Hin.
      * unfold belongs. now rewrite Hv, str_eqb_refl.
    + rewrite build_yearly_progress_lookup in Einfo.
      destruct (dict_lookup (sum_months set_order monthly_progress goals (seed_years goals))
                  (before_dash m)); [discriminate | contradiction].
  - intros y info Hinfo.
    destruct (Hfrom _ _ Hinfo) as (e & He & Hm & _ & Hok).
    assert (dict_lookup (sum_months set_order monthly_progress goals (seed_years goals)) y
            <> None) as Hhas by (rewrite He; discriminate).
    apply sum_months_only in Hhas. destruct Hhas as [(m & Hin & Hb)|Hyear]; [left | now right].
    exists m. rewrite Hm.
    apply (Permutation_in _ (Permutation_sym (sorted_by_perm str_leb _))).
    rewrite (ok_months Hok). apply filter_In. split; [|exact Hb].
    apply set_order_spec, in_or_app. exact Hin.
  - intros y info Hinfo.
    destruct (Hfrom _ _ Hinfo) as (e & _ & Hm & Ht & Hok).
    rewrite Ht, Hm, (ok_target Hok), <- (ok_months Hok).
    apply goal_total_perm, Permutation_sym, sorted_by_perm.
Qed.

End WithSetOrder.

(** Progress of two years: the design document's contract and one signed
    in December 2024 and canceled in January 2025; goals for three
    months and an explicitly set goal for 2025 only. *)
Definition sato_contract : contract :=
  {| staff_id := u "Sato";
     mediation_start_date := u "2024-12-05";
     status_date := u "2025-01-20";
     cancel_reason := PNone;
     deal_status := CANCELED |}.

Definition two_year_progress : Progress.monthly_progress :=
  build_monthly_progress [tanaka_contract; sato_contract].

Definition month_goal_of (target : Z) : goal :=
  {| storeTarget := target; staffTargets := [(u "Tanaka", target)];
     includeStaff := [u "Tanaka"]; other_keys := [] |}.

Definition two_year_goals : goals_data :=
  {| default := zero_goal;
     monthly := [(u "2025-04", month_goal_of 4);
                 (u "2024-11", month_goal_of 3);
                 (u "2024-12", month_goal_of 5)];
     annual := [(u "2025",
                 {| storeTarget := 40; staffTargets := [(u "Tanaka", 40)];
                    includeStaff := []; other_keys := [] |})] |}.

Lemma build_yearly_progress_rollup_witness :
  (exists info,
      dict_lookup (build_yearly_progress distinct two_year_progress two_year_goals)
        (u "2025") = Some info
      /\ storeTarget (year_goal info) = 40
      /\ months info = [u "2025-01"; u "2025-04"]
      /\ monthlyTargetTotal info = 4
      /\ signed (progress info) = 1
      /\ canceled (progress info) = 1
      /\ net (progress info) = 0
      /\ staff_value staff_signed (u "Tanaka") (staff (progress info)) = 1
      /\ staff_value staff_canceled (u "Sato") (staff (progress info)) = 1)
  /\ (exists info,
      dict_lookup (build_yearly_progress distinct two_year_progress two_year_goals)
        (u "2024") = Some info
      /\ storeTarget (year_goal info) = 8
      /\ months info = [u "2024-11"; u "2024-12"]
      /\ monthlyTargetTotal info = 8
      /\ signed (progress info) = 1
      /\ canceled (progress info) = 0
      /\ net (progress info) = 1
      /\ staff_value staff_signed (u "Sato") (staff (progress info)) = 1
      /\ staff_value staff_signed (u "Tanaka") (staff (progress info)) = 0).
Proof.
  pose proof (@build_yearly_progress_rollup distinct distinct_spec
                two_year_progress two_year_goals)
    as (Hentry & Hyear & Hmonth & _ & Htarget).
  split.
  - destruct (Hyear (u "2025") _ eq_refl) as (info & Hinfo & Hgoal);
      [discriminate | reflexivity |].
    destruct (Hentry _ _ Hinfo) as (_ & _ & _ & Hsigned & Hcanceled & Hnet & Hstaff).
    destruct (Hstaff (u "Tanaka")) as (Htanaka & _).
    destruct (Hstaff (u "Sato")) as (_ & Hsato & _).
    pose proof (Htarget _ _ Hinfo) as Htotal.
    exists info. split; [exact Hinfo|].
    assert (months info = [u "2025-01"; u "2025-04"]) as Hmonths.
    { vm_compute in Hinfo. now injection Hinfo as <-. }
    rewrite Hgoal, Htotal, Hsigned, Hcanceled, Hnet, Htanaka, Hsato, Hmonths.
    repeat split.
  - destruct (Hmonth (u "2024-12")) as (info & Hinfo & _);
      [right; right; right; now left | reflexivity |].
    change (before_dash (u "2024-12")) with (u "2024") in Hinfo.
    destruct (Hentry _ _ Hinfo) as (_ & Hgoal & _ & Hsigned & Hcanceled & Hnet & Hstaff).
    destruct (Hstaff (u "Tanaka")) as (Htanaka & _).
    destruct (Hstaff (u "Sato")) as (Hsato & _).
    pose proof (Htarget _ _ Hinfo) as Htotal.
    exists info. split; [exact Hinfo|].
    assert (months info = [u "2024-11"; u "2024-12"]) as Hmonths.
    { vm_compute in Hinfo. now injection Hinfo as <-. }
    rewrite (Hgoal eq_refl), Htotal, Hsigned, Hcanceled, Hnet, Htanaka, Hsato, Hmonths.
    repeat split.
Defined.

End RollupFacts.

(* ================================================================== *)
(** * Properties of the case-number sequencer                       *)
(* ================================================================== *)

Module CaseNumbersFacts.
Import Py PyFacts CaseNumbers.

(** ** Decimal text *)

Lemma last2_digits_w w n : last2 (digits_w (S (S w)) n) = digits_w 2 n.
Proof.
  unfold last2. rewrite length_digits_w.
  cbn [digits_w]. rewrite <- app_assoc.
  replace (S (S w) - 2)%nat with (List.length (digits_w w (n / 10 / 10)) + 0)%nat
    by (rewrite length_digits_w; lia).
  rewrite skipn_app, skipn_all2 by lia.
  replace (List.length (digits_w w (n / 10 / 10)) + 0 - List.length (digits_w w (n / 10 / 10)))%nat
    with 0%nat by lia.
  reflexivity.
Qed.

Lemma year_short_recent year :
  (2000 <= year)%Z -> year_short year = digits_w 2 (Z.to_N year).
Proof.
  intros H. unfold year_short.
  destruct (Z.leb_spec 2000 year); [|lia].
  destruct year as [|p|p]; try lia.
  unfold str_of_Z, str_of_N. cbn [Z.to_N].
  assert (exists f, N.size_nat (N.pos p) = S f) as [f Hf].
  { destruct p; simpl; eauto. }
  rewrite Hf. cbn [ndigits].
  destruct (N.ltb_spec (N.pos p) 10); [lia|].
  destruct f as [|f].
  { exfalso. destruct p as [p|p|]; simpl in Hf; try lia; destruct p; discriminate. }
  cbn [ndigits].
  destruct (N.pos p / 10 <? 10)%N; apply last2_digits_w.
Qed.

(** ** The new number *)

Lemma str_or_nil x : str_or x [] = x.
Proof. now destruct x. Qed.

Definition date_leb (a b : customer) : bool :=
  str_leb (inquiry_date a) (inquiry_date b).

(** The customers with a date that is not after [d]. *)
Definition not_after (d : str) (c : customer) : bool :=
  truthy (PStr (inquiry_date c)) && str_leb (inquiry_date c) d.

Definition earlier_or_same (d : str) (l : list customer) : N :=
  N.of_nat (List.length (filter (not_after d) l)).

Lemma none_before_a_later_one (c : customer) (d : str) (l : list customer) :
  Forall (ordered date_leb c) l -> str_leb (inquiry_date c) d = false ->
  filter (fun c0 => str_leb (inquiry_date c0) d) l = [].
Proof.
  intros Hall E. induction Hall as [|x l Hx _ IH]; simpl; [reflexivity|].
  destruct (str_leb (inquiry_date x) d) eqn:Ex; [|exact IH].
  unfold ordered, date_leb in Hx.
  rewrite (str_leb_trans _ _ _ Hx Ex) in E. discriminate.
Qed.

Lemma count_until_sorted l d seq :
  StronglySorted (ordered date_leb) l ->
  count_until l d seq
  = (seq + N.of_nat (List.length (filter (fun c => str_leb (inquiry_date c) d) l)))%N.
Proof.
  intros Hs. revert seq. induction Hs as [|c l Hs IH Hall]; intros seq; simpl.
  - lia.
  - rewrite str_or_nil. destruct (str_leb (inquiry_date c) d) eqn:E.
    + rewrite IH. simpl. lia.
    + rewrite (none_before_a_later_one _ Hall E). simpl. lia.
Qed.

Lemma length_filter_perm (A : Type) (p : A -> bool) (l l' : list A) :
  Permutation l l' -> List.length (filter p l) = List.length (filter p l').
Proof.
  induction 1 as [|x l l' _ IH|x y l|l l' l'' _ IH1 _ IH2]; simpl.
  - reflexivity.
  - destruct (p x); simpl; now rewrite IH.
  - destruct (p x), (p y); reflexivity.
  - now rewrite IH1.
Qed.

Lemma filter_filter (A : Type) (p q : A -> bool) (l : list A) :
  filter p (filter q l) = filter (fun x => q x && p x) l.
Proof.
  induction l as [|x l IH]; simpl; [reflexivity|].
  destruct (q x); simpl; [destruct (p x)|]; now rewrite IH.
Qed.

Lemma generate_case_number_seq category year new_date existing :
  generate_case_number_for_date category year new_date existing
  = prefix_of category ++ year_short year
    ++ format_0d 4 (1 + earlier_or_same new_date existing).
Proof.
  unfold generate_case_number_for_date. do 3 f_equal.
  set (leb := fun a b : customer =>
                str_leb (str_or (inquiry_date a) []) (str_or (inquiry_date b) [])).
  set (dated := filter (fun c => truthy (PStr (inquiry_date c))) existing).
  rewrite count_until_sorted.
  - unfold earlier_or_same, not_after.
    rewrite (length_filter_perm _ (sorted_by_perm leb dated)).
    unfold dated. now rewrite filter_filter.
  - assert (StronglySorted (ordered leb) (sorted_by leb dated)) as Hs.
    { apply sorted_by_sorted; unfold leb; intros.
      - apply str_leb_total.
      - eapply str_leb_trans; eassumption. }
    revert Hs.
    assert (forall l, StronglySorted (ordered leb) l ->
                      StronglySorted (ordered date_leb) l) as Hconv.
    { induction 1 as [|x l Hl IHl Hx]; constructor; [exact IHl|].
      rewrite Forall_forall in *. intros y Hy. specialize (Hx y Hy).
      unfold ordered, leb, date_leb in *. now rewrite !str_or_nil in Hx. }
    apply Hconv.
Qed.

(** The customer of the design document's example. *)
Definition sell_0401 : customer :=
  {| id := u "c1"; case_number := u "S250001";
     inquiry_date := u "2025-04-01"; created_at := [] |}.

(** C8: the new case number is the prefix of the category (S, B, R, else
    X), the year suffix (the last two digits from 2000 on, the year as
    written before) and the sequence written with at least four digits,
    where the sequence is one more than the number of existing customers
    whose inquiry date is not empty and not after the new date. *)
Theorem generate_case_number_format (category : str) (year : Z) (new_date : str)
  (existing : list customer) :
  generate_case_number_for_date category year new_date existing
  = prefix_of category ++ year_short year
    ++ format_0d 4 (1 + earlier_or_same new_date existing)
  /\ prefix_of (u "sell") = u "S"
  /\ prefix_of (u "buy") = u "B"
  /\ prefix_of (u "investment") = u "R"
  /\ (category <> u "sell" -> category <> u "buy" -> category <> u "investment" ->
      prefix_of category = u "X")
  /\ ((2000 <= year)%Z -> year_short year = digits_w 2 (Z.to_N year))
  /\ ((year < 2000)%Z -> year_short year = str_of_Z year)
  /\ (forall seq, (seq < 10000)%N -> format_0d 4 seq = digits_w 4 seq)
  /\ generate_case_number_for_date (u "sell") 2025 (u "2025-04-15") [] = u "S250001"
  /\ generate_case_number_for_date (u "sell") 2025 (u "2025-04-15") [sell_0401]
     = u "S250002".
Proof.
  split; [apply generate_case_number_seq|].
  repeat split; try reflexivity.
  - intros H1 H2 H3. unfold prefix_of, dict_get_default. cbn [dict_lookup].
    apply str_eqb_neq in H1, H2, H3.
    rewrite (str_eqb_sym (u "sell")), H1.
    rewrite (str_eqb_sym (u "buy")), H2.
    rewrite (str_eqb_sym (u "investment")), H3. reflexivity.
  - apply year_short_recent.
  - intros H. unfold year_short. destruct (Z.leb_spec 2000 year); [lia | reflexivity].
  - intros seq H. apply format_0d_small; [lia | exact H].
Qed.

(** C10: the sequencer can hand out a number that is taken: a customer
    with the number S250001 and the inquiry date 2025-04-01 is on file,
    and a new inquiry dated 2025-03-01 gets S250001 again. *)
Theorem generate_case_number_can_repeat :
  generate_case_number_for_date (u "sell") 2025 (u "2025-03-01") [sell_0401]
  = case_number sell_0401
  /\ exists category year new_date existing,
       In (generate_case_number_for_date category year new_date existing)
          (map case_number existing).
Proof.
  split; [reflexivity|].
  exists (u "sell"), 2025%Z, (u "2025-03-01"), [sell_0401]. now left.
Qed.

(** A category outside the three and a year before 2000, then the year
    2025. *)
Lemma generate_case_number_format_witness :
  generate_case_number_for_date (u "rent") 1999 (u "1999-05-01") [sell_0401]
  = u "X" ++ u "1999" ++ digits_w 4 1
  /\ year_short 2025 = u "25".
Proof.
  pose proof (generate_case_number_format (u "rent") 1999 (u "1999-05-01") [sell_0401])
    as (Hnum & _ & _ & _ & Hother & _ & Hold & Hpad & _).
  pose proof (generate_case_number_format (u "sell") 2025 (u "2025-04-15") [])
    as (_ & _ & _ & _ & _ & Hrecent & _).
  split.
  - rewrite Hnum.
    rewrite Hother by discriminate.
    rewrite Hold by lia.
    rewrite Hpad by (vm_compute; reflexivity).
    reflexivity.
  - rewrite Hrecent by lia. reflexivity.
Defined.

End CaseNumbersFacts.

(* ================================================================== *)
(** * Properties of the re-derivation of case numbers               *)
(* ================================================================== *)

Module ReassignFacts.
Import Py PyFacts CaseNumbers CaseNumbersFacts.

(** ** The order on sort keys *)

Lemma str_ltb_iff a b : str_ltb a b = true <-> str_leb a b = true /\ a <> b.
Proof.
  unfold str_ltb. rewrite andb_true_iff, negb_true_iff, str_eqb_neq. tauto.
Qed.

Lemma str_ltb_false_iff a b : str_ltb a b = false <-> str_leb b a = true.
Proof.
  split.
  - intros H. destruct (str_leb_total a b) as [Hab|Hba]; [|exact Hba].
    destruct (str_eq_dec a b) as [->|Hne]; [apply str_leb_refl|].
    assert (str_ltb a b = true) by (apply str_ltb_iff; auto). congruence.
  - intros H. destruct (str_ltb a b) eqn:E; [|reflexivity].
    apply str_ltb_iff in E as [Hab Hne].
    exfalso. apply Hne. now apply str_leb_antisym.
Qed.

(** [key_leb] spelled out. *)
Lemma key_leb_iff d1 s1 n1 c1 d2 s2 n2 c2 :
  key_leb (d1, s1, n1, c1) (d2, s2, n2, c2) = true <->
  str_ltb d1 d2 = true \/
  d1 = d2 /\ ((s1 < s2)%Z \/
              s1 = s2 /\ (str_ltb n1 n2 = true \/ n1 = n2 /\ str_leb c1 c2 = true)).
Proof.
  unfold key_leb.
  destruct (str_ltb d1 d2) eqn:Ed; [tauto|].
  destruct (str_eqb d1 d2) eqn:Ed'; simpl.
  2:{ apply str_eqb_neq in Ed'. split; [discriminate|]. intros [H|[H _]]; congruence. }
  apply str_eqb_eq in Ed'. subst d2.
  destruct (Z.ltb_spec s1 s2) as [Hs|Hs]; [tauto|].
  destruct (Z.eqb_spec s1 s2) as [->|Hs']; simpl.
  2:{ split; [discriminate|]. intros [H|[_ [H|[H _]]]]; try discriminate; lia. }
  destruct (str_ltb n1 n2) eqn:En; [tauto|].
  destruct (str_eqb n1 n2) eqn:En'; simpl.
  2:{ apply str_eqb_neq in En'. split; [discriminate|].
      intros [H|[_ [H|[_ [H|[H _]]]]]]; try discriminate; try lia; congruence. }
  apply str_eqb_eq in En'. subst n2.
  split.
  - intros H. right. split; [reflexivity|]. right. split; [reflexivity|].
    right. now split.
  - intros [H|[_ [H|[_ [H|[_ H]]]]]]; try discriminate; try lia; exact H.
Qed.

Definition row_leb (a b : customer) : bool := key_leb (sort_key a) (sort_key b).

Lemma str_ltb_trans a b c :
  str_ltb a b = true -> str_ltb b c = true -> str_ltb a c = true.
Proof.
  rewrite !str_ltb_iff. intros [H1 N1] [H2 N2]. split.
  - eapply str_leb_trans; eassumption.
  - intros ->. apply N1. now apply str_leb_antisym.
Qed.

Lemma str_ltb_irrefl a : str_ltb a a = false.
Proof. apply str_ltb_false_iff, str_leb_refl. Qed.

Lemma str_trichotomy a b : str_ltb a b = true \/ a = b \/ str_ltb b a = true.
Proof.
  destruct (str_eq_dec a b) as [->|Hne]; [auto|].
  destruct (str_leb_total a b) as [H|H].
  - left. apply str_ltb_iff. auto.
  - right. right. apply str_ltb_iff. auto.
Qed.

Lemma key_leb_total a b : key_leb a b = true \/ key_leb b a = true.
Proof.
  destruct a as [[[d1 s1] n1] c1], b as [[[d2 s2] n2] c2].
  rewrite !key_leb_iff.
  destruct (str_trichotomy d1 d2) as [H|[->|H]];
    [left; left; exact H | | right; left; exact H].
  destruct (Z.lt_trichotomy s1 s2) as [H|[->|H]];
    [left; right; split; [reflexivity | left; exact H] |
     | right; right; split; [reflexivity | left; exact H]].
  destruct (str_trichotomy n1 n2) as [H|[->|H]];
    [left; right; split; [reflexivity | right; split; [reflexivity | left; exact H]] |
     | right; right; split; [reflexivity | right; split; [reflexivity | left; exact H]]].
  destruct (str_leb_total c1 c2) as [H|H].
  - left. right. split; [reflexivity|]. right. split; [reflexivity|]. right. auto.
  - right. right. split; [reflexivity|]. right. split; [reflexivity|]. right. auto.
Qed.

Lemma key_leb_trans a b c :
  key_leb a b = true -> key_leb b c = true -> key_leb a c = true.
Proof.
  destruct a as [[[d1 s1] n1] c1], b as [[[d2 s2] n2] c2], c as [[[d3 s3] n3] c3].
  rewrite !key_leb_iff.
  intros [H1|[-> H1]] [H2|[-> H2]].
  - left. eapply str_ltb_trans; eassumption.
  - now left.
  - now left.
  - right. split; [reflexivity|].
    destruct H1 as [H1|[-> H1]], H2 as [H2|[-> H2]]; try (left; lia).
    right. split; [reflexivity|].
    destruct H1 as [H1|[-> H1]], H2 as [H2|[-> H2]].
    + left. eapply str_ltb_trans; eassumption.
    + now left.
    + now left.
    + right. split; [reflexivity|]. eapply str_leb_trans; eassumption.
Qed.

Lemma row_leb_total a b : row_leb a b = true \/ row_leb b a = true.
Proof. apply key_leb_total. Qed.

Lemma row_leb_trans a b c :
  row_leb a b = true -> row_leb b c = true -> row_leb a c = true.
Proof. apply key_leb_trans. Qed.

(** ** What the renumbering loop leaves in the rows *)

Definition set_case_number (r : customer) (n : str) : customer :=
  {| id := id r; case_number := n;
     inquiry_date := inquiry_date r; created_at := created_at r |}.

Definition number_text (prefix yy : str) (idx : N) : str :=
  prefix ++ yy ++ format_0d 4 idx.

(** The number each id is given, in the order of the sorted customers. *)
Fixpoint numbering (prefix yy : str) (idx : N) (sorted_customers : list customer)
  : list (str * str) :=
  match sorted_customers with
  | [] => []
  | c :: rest =>
      (id c, number_text prefix yy idx) :: numbering prefix yy (idx + 1) rest
  end.

Definition apply_numbers (numbers : list (str * str)) (rows : list customer)
  : list customer :=
  map (fun r =>
         match dict_lookup numbers (id r) with
         | Some n => set_case_number r n
         | None => r
         end)
      rows.

(** The sorted customers with their new numbers. *)
Fixpoint stamp (prefix yy : str) (idx : N) (sorted_customers : list customer)
  : list customer :=
  match sorted_customers with
  | [] => []
  | c :: rest =>
      set_case_number c (number_text prefix yy idx) :: stamp prefix yy (idx + 1) rest
  end.

Lemma keys_numbering prefix yy idx l : keys (numbering prefix yy idx l) = map id l.
Proof.
  revert idx. induction l as [|c l IH]; intros idx; simpl; [reflexivity|].
  f_equal. apply IH.
Qed.

Lemma renumber_spec prefix yy idx sorted_customers rows :
  NoDup (map id sorted_customers) ->
  renumber prefix yy idx sorted_customers rows
  = apply_numbers (numbering prefix yy idx sorted_customers) rows.
Proof.
  revert idx rows. induction sorted_customers as [|c rest IH]; intros idx rows Hnd.
  - simpl. unfold apply_numbers. simpl. now rewrite map_id.
  - inversion Hnd as [|? ? Hnotin Hnd']; subst.
    cbn [renumber numbering]. rewrite IH by exact Hnd'.
    unfold apply_numbers, update_case_number. rewrite map_map.
    apply map_ext. intros r. cbn [dict_lookup].
    rewrite (str_eqb_sym (id c) (id r)).
    destruct (str_eqb (id r) (id c)) eqn:E; [|reflexivity].
    apply str_eqb_eq in E. cbn [id].
    assert (dict_lookup (numbering prefix yy (idx + 1) rest) (id r) = None) as ->.
    { apply lookup_none_iff. rewrite keys_numbering. now rewrite E. }
    reflexivity.
Qed.

Lemma map_id_apply_numbers numbers rows :
  map id (apply_numbers numbers rows) = map id rows.
Proof.
  unfold apply_numbers. rewrite map_map. apply map_ext. intros r.
  now destruct (dict_lookup numbers (id r)).
Qed.

Lemma map_id_stamp prefix yy idx l : map id (stamp prefix yy idx l) = map id l.
Proof.
  revert idx. induction l as [|c l IH]; intros idx; simpl; [reflexivity|].
  f_equal. apply IH.
Qed.

Lemma numbering_ids prefix yy idx l1 l2 :
  map id l1 = map id l2 -> numbering prefix yy idx l1 = numbering prefix yy idx l2.
Proof.
  revert idx l2. induction l1 as [|a l1 IH]; intros idx [|b l2] H; simpl in *;
    try discriminate; [reflexivity|].
  injection H as Hid Hrest. rewrite Hid. f_equal. now apply IH.
Qed.

Lemma apply_numbers_idem numbers rows :
  apply_numbers numbers (apply_numbers numbers rows) = apply_numbers numbers rows.
Proof.
  unfold apply_numbers. rewrite map_map. apply map_ext. intros r.
  destruct (dict_lookup numbers (id r)) as [n|] eqn:E.
  - cbn [id set_case_number]. now rewrite E.
  - now rewrite E.
Qed.

Lemma apply_numbers_skip k v numbers rows :
  ~ In k (map id rows) ->
  apply_numbers ((k, v) :: numbers) rows = apply_numbers numbers rows.
Proof.
  intros Hnotin. unfold apply_numbers. apply map_ext_in. intros r Hr.
  cbn [dict_lookup]. destruct (str_eqb k (id r)) eqn:E; [|reflexivity].
  apply str_eqb_eq in E. subst k. exfalso. apply Hnotin. now apply in_map.
Qed.

Lemma apply_numbers_self prefix yy idx l :
  NoDup (map id l) ->
  apply_numbers (numbering prefix yy idx l) l = stamp prefix yy idx l.
Proof.
  revert idx. induction l as [|c l IH]; intros idx Hnd; [reflexivity|].
  inversion Hnd as [|? ? Hnotin Hnd']; subst.
  cbn [numbering stamp].
  change (apply_numbers ((id c, number_text prefix yy idx)
                           :: numbering prefix yy (idx + 1) l) (c :: l))
    with (match dict_lookup ((id c, number_text prefix yy idx)
                               :: numbering prefix yy (idx + 1) l) (id c) with
          | Some n => set_case_number c n
          | None => c
          end
          :: apply_numbers ((id c, number_text prefix yy idx)
                              :: numbering prefix yy (idx + 1) l) l).
  cbn [dict_lookup]. rewrite str_eqb_refl.
  f_equal. rewrite apply_numbers_skip by exact Hnotin. now apply IH.
Qed.

(** ** The numbers sort back into place *)

Lemma case_seq_number_text prefix yy idx :
  (idx < 10000)%N -> case_seq (number_text prefix yy idx) = Z.of_N idx.
Proof.
  intros H. unfold number_text. rewrite format_0d_small by (simpl; lia).
  rewrite app_assoc. set (pre := prefix ++ yy).
  assert (List.length (pre ++ digits_w 4 idx) = (List.length pre + 4)%nat) as Hlen
    by (rewrite length_app, length_digits_w; reflexivity).
  unfold case_seq.
  destruct (pre ++ digits_w 4 idx) as [|x t] eqn:E.
  { simpl in Hlen. lia. }
  rewrite <- E in Hlen |- *. unfold last_four_digits. rewrite Hlen.
  replace (Nat.leb 4 (List.length pre + 4)) with true
    by (symmetry; apply Nat.leb_le; lia).
  replace (List.length pre + 4 - 4)%nat with (List.length pre + 0)%nat by lia.
  rewrite skipn_app, skipn_all2 by lia.
  replace (List.length pre + 0 - List.length pre)%nat with 0%nat by lia.
  cbn [skipn app]. rewrite digits_value_digits_w.
  change (10 ^ N.of_nat 4)%N with 10000%N.
  rewrite N.mod_small by exact H. now rewrite N.mul_0_l, N.add_0_l.
Qed.

(** The date a row is sorted under. *)
Definition date_key (c : customer) : str := str_or (inquiry_date c) (u "9999-99-99").

Lemma row_leb_date a b : row_leb a b = true -> str_leb (date_key a) (date_key b) = true.
Proof.
  unfold row_leb, sort_key. rewrite key_leb_iff. fold (date_key a) (date_key b).
  intros [H|[-> _]]; [|apply str_leb_refl].
  now apply str_ltb_iff in H.
Qed.

Lemma stamped_in_order prefix yy a b i j :
  str_leb (date_key a) (date_key b) = true -> (i < j)%N -> (j < 10000)%N ->
  strictly row_leb (set_case_number a (number_text prefix yy i))
                   (set_case_number b (number_text prefix yy j)).
Proof.
  intros Hd Hij Hj. unfold strictly, row_leb, sort_key. cbn [set_case_number
    inquiry_date case_number created_at]. fold (date_key a) (date_key b).
  rewrite !case_seq_number_text by lia.
  split.
  - apply key_leb_iff.
    destruct (str_eq_dec (date_key a) (date_key b)) as [->|Hne].
    + right. split; [reflexivity|]. left. lia.
    + left. apply str_ltb_iff. auto.
  - destruct (key_leb _ _) eqn:E; [|reflexivity]. exfalso.
    apply key_leb_iff in E. destruct E as [E|[E [E'|[E' _]]]]; try lia.
    apply str_ltb_iff in E as [E Hne]. apply Hne. now apply str_leb_antisym.
Qed.

Lemma in_stamp prefix yy idx l x :
  In x (stamp prefix yy idx l) ->
  exists r j, In r l /\ (idx <= j < idx + N.of_nat (List.length l))%N
              /\ x = set_case_number r (number_text prefix yy j).
Proof.
  revert idx. induction l as [|c l IH]; intros idx; simpl; [contradiction|].
  intros [<-|H].
  - exists c, idx. repeat split; auto; lia.
  - apply IH in H as (r & j & Hr & Hj & ->). exists r, j. repeat split; auto; lia.
Qed.

Lemma stamp_sorted prefix yy idx l :
  StronglySorted (ordered row_leb) l ->
  (idx + N.of_nat (List.length l) <= 10000)%N ->
  StronglySorted (strictly row_leb) (stamp prefix yy idx l).
Proof.
  intros Hs. revert idx. induction Hs as [|c l Hs IH Hall]; intros idx Hlen; simpl.
  - constructor.
  - simpl in Hlen. constructor; [apply IH; lia|].
    rewrite Forall_forall in *. intros x Hx.
    apply in_stamp in Hx as (r & j & Hr & Hj & ->).
    apply stamped_in_order; try lia.
    apply row_leb_date. now apply Hall.
Qed.

Section WithStoreOrder.

Variable load_order : list customer -> list customer.
Hypothesis load_order_perm : forall rows, Permutation (load_order rows) rows.

#[local] Abbreviation reassign := (reassign_case_numbers load_order).

Lemma reassign_spec category year rows :
  NoDup (map id rows) ->
  snd (reassign category year rows)
  = apply_numbers
      (numbering (prefix_of category) (year_short year) 1
         (sorted_by row_leb (load_order rows)))
      rows.
Proof.
  intros Hnd. unfold reassign_case_numbers.
  destruct (load_order rows) as [|c l] eqn:E.
  - pose proof (load_order_perm rows) as Hp. rewrite E in Hp.
    apply Permutation_nil in Hp. now subst.
  - cbn [snd]. rewrite <- E. apply renumber_spec.
    eapply Permutation_NoDup; [|exact Hnd].
    apply Permutation_map, Permutation_sym.
    rewrite sorted_by_perm. apply load_order_perm.
Qed.

Lemma reassign_count category year rows :
  fst (reassign category year rows) = N.of_nat (List.length rows).
Proof.
  unfold reassign_case_numbers.
  pose proof (load_order_perm rows) as Hp.
  destruct (load_order rows) as [|c l] eqn:E.
  - apply Permutation_nil in Hp. now subst.
  - cbn [fst]. f_equal.
    now rewrite (Permutation_length (sorted_by_perm _ _)), (Permutation_length Hp).
Qed.

(** C9 (for partitions whose numbers fit four digits): on a partition of
    at most 9999 customers with distinct ids, a second
    [reassign_case_numbers] reports the same count and leaves every row
    as the first pass left it. *)
Theorem reassign_case_numbers_idempotent (category : str) (year : Z)
  (rows : list customer) :
  NoDup (map id rows) -> (N.of_nat (List.length rows) <= 9999)%N ->
  let once := reassign category year rows in
  reassign category year (snd once) = once.
Proof.
  intros Hnd Hlen once.
  set (prefix := prefix_of category). set (yy := year_short year).
  set (sorted1 := sorted_by row_leb (load_order rows)).
  assert (Permutation sorted1 rows) as Hperm1.
  { unfold sorted1. rewrite sorted_by_perm. apply load_order_perm. }
  assert (NoDup (map id sorted1)) as Hnd1.
  { eapply Permutation_NoDup; [|exact Hnd].
    now apply Permutation_map, Permutation_sym. }
  assert (snd once = apply_numbers (numbering prefix yy 1 sorted1) rows) as Hrows1.
  { unfold once. now apply reassign_spec. }
  set (rows1 := snd once) in *.
  assert (map id rows1 = map id rows) as Hids.
  { rewrite Hrows1. apply map_id_apply_numbers. }
  assert (NoDup (map id rows1)) as Hnd1' by now rewrite Hids.
  (* the sorted list of the second pass *)
  assert (sorted_by row_leb (load_order rows1) = stamp prefix yy 1 sorted1) as Hsorted2.
  { apply (@sorted_unique _ row_leb).
    - apply stamp_sorted.
      + apply sorted_by_sorted; [apply row_leb_total | apply row_leb_trans].
      + rewrite (Permutation_length Hperm1). lia.
    - apply sorted_by_sorted; [apply row_leb_total | apply row_leb_trans].
    - rewrite sorted_by_perm, load_order_perm, Hrows1.
      rewrite <- (@apply_numbers_self prefix yy 1 sorted1 Hnd1).
      unfold apply_numbers. now apply Permutation_map. }
  assert (snd (reassign category year rows1) = rows1) as Hsnd.
  { rewrite reassign_spec by exact Hnd1'. fold prefix yy. rewrite Hsorted2.
    rewrite (@numbering_ids prefix yy 1 (stamp prefix yy 1 sorted1) sorted1)
      by apply map_id_stamp.
    rewrite Hrows1. apply apply_numbers_idem. }
  assert (fst (reassign category year rows1) = fst once) as Hfst.
  { unfold once. rewrite !reassign_count.
    now rewrite <- (length_map id rows1), Hids, length_map. }
  destruct (reassign category year rows1) as [n2 r2]. destruct once as [n1 r1] eqn:Eo.
  simpl in *. subst rows1. congruence.
Qed.

End WithStoreOrder.

(** ** A partition of ten thousand customers *)

(** [ORDER BY case_number DESC], ties in the order of the rows. *)
Definition by_case_number_desc (rows : list customer) : list customer :=
  sorted_by (fun a b => str_leb (case_number b) (case_number a)) rows.

Lemma by_case_number_desc_perm rows : Permutation (by_case_number_desc rows) rows.
Proof. apply sorted_by_perm. Qed.

(** The [i]-th customer of the partition: all inquiries are of the same
    day, and the numbers on file run from S250000 on. *)
Definition nth_customer (i : nat) : customer :=
  {| id := u "id-" ++ digits_w 5 (N.of_nat i);
     case_number := u "S25" ++ digits_w 4 (N.of_nat i);
     inquiry_date := u "2025-04-01";
     created_at := [] |}.

Definition first_customer : customer := nth_customer 0.

Definition crowd : list customer :=
  first_customer :: map nth_customer (seq 1 9999).

(** Strictly increasing ids, checked pair by pair. *)
Fixpoint increasing (l : list str) : bool :=
  match l with
  | a :: (b :: _) as rest => str_ltb a b && increasing rest
  | _ => true
  end.

Lemma increasing_NoDup l : increasing l = true -> NoDup l.
Proof.
  intros H.
  assert (StronglySorted (fun a b => str_ltb a b = true) l) as Hs.
  { apply Sorted_StronglySorted.
    - intros a b c. apply str_ltb_trans.
    - induction l as [|a l IH]; [constructor|].
      destruct l as [|b l]; [repeat constructor|].
      simpl in H. apply andb_true_iff in H as [Hab Hrest].
      constructor; [now apply IH | now constructor]. }
  clear H. induction Hs as [|a l _ IH Hall]; constructor; [|exact IH].
  intros Hin. rewrite Forall_forall in Hall. specialize (Hall a Hin).
  now rewrite str_ltb_irrefl in Hall.
Qed.

Lemma crowd_ids : NoDup (map id crowd).
Proof. apply increasing_NoDup. vm_compute. reflexivity. Qed.

Lemma crowd_first_sort :
  sorted_by row_leb (by_case_number_desc crowd) = crowd.
Proof. vm_compute. reflexivity. Qed.

Lemma crowd_second_number :
  dict_lookup
    (numbering (prefix_of (u "sell")) (year_short 2025) 1
       (sorted_by row_leb
          (by_case_number_desc
             (stamp (prefix_of (u "sell")) (year_short 2025) 1 crowd))))
    (id first_customer)
  = Some (u "S250002").
Proof. vm_compute. reflexivity. Qed.

Lemma crowd_once :
  snd (reassign_case_numbers by_case_number_desc (u "sell") 2025 crowd)
  = stamp (prefix_of (u "sell")) (year_short 2025) 1 crowd.
Proof.
  rewrite (@reassign_spec by_case_number_desc by_case_number_desc_perm)
    by apply crowd_ids.
  rewrite crowd_first_sort. apply apply_numbers_self, crowd_ids.
Qed.

(** C9, as stated, fails: ten thousand customers with the same inquiry
    date get the numbers S250001 to S2510000 in a first pass; the last
    four digits of S2510000 read 0, so the second pass puts that customer
    first and moves every other one down: the customer numbered S250001
    becomes S250002. *)
Lemma reassign_twice_renumbers :
  let once := reassign_case_numbers by_case_number_desc (u "sell") 2025 crowd in
  reassign_case_numbers by_case_number_desc (u "sell") 2025 (snd once) <> once.
Proof.
  intros once H. apply (f_equal (fun p => map case_number (firstn 1 (snd p)))) in H.
  unfold once in H. rewrite crowd_once in H.
  rewrite (@reassign_spec by_case_number_desc by_case_number_desc_perm) in H
    by (rewrite map_id_stamp; apply crowd_ids).
  unfold crowd at 2 3 in H. cbn [stamp apply_numbers map firstn] in H.
  cbn [id set_case_number] in H.
  rewrite crowd_second_number in H.
  cbn [case_number set_case_number] in H.
  vm_compute in H. discriminate.
Qed.

(** Two customers whose numbers on file are out of date order, and the
    store's order of their rows. *)
Definition two_customers : list customer :=
  [ {| id := u "id-a"; case_number := u "S250001";
       inquiry_date := u "2025-04-20"; created_at := u "2025-04-20T10:00:00" |};
    {| id := u "id-b"; case_number := u "S250002";
       inquiry_date := u "2025-04-03"; created_at := u "2025-04-21T09:00:00" |} ].

Lemma reassign_case_numbers_idempotent_witness :
  let once := reassign_case_numbers by_case_number_desc (u "sell") 2025 two_customers in
  map case_number (snd once) = [u "S250002"; u "S250001"]
  /\ reassign_case_numbers by_case_number_desc (u "sell") 2025 (snd once) = once.
Proof.
  split; [reflexivity|].
  apply (@reassign_case_numbers_idempotent by_case_number_desc
           by_case_number_desc_perm (u "sell") 2025%Z two_customers).
  - apply increasing_NoDup. reflexivity.
  - vm_compute. discriminate.
Defined.

End ReassignFacts.
